(** * Proxy checker (proxy.py, proxy2.py): embedding and verification

    The two scripts read a newline-delimited list of proxy addresses,
    probe every address through [requests.get] from a thread pool, collect
    the addresses classified as working and write them to a text file.

    What is modelled and how:
    - a Python [str] is a list of Unicode code points ([list N]);
    - [requests.get] is a parameter: the network answers each request,
      possibly depending on the requests already issued by the same call;
      a prober threads the trace of its requests through a small state
      monad; a request is one call of [requests.get], whatever redirects
      the library follows inside it;
    - [urllib.parse.urlparse] is a parameter as well, with the standard
      library's behaviour on unmatched square brackets as an instance;
    - an exception is identified by its class; [except C] catches the
      instances of [C], that is the subclasses of [C];
    - the file system is a finite map from file names to text as the text
      layer of [open(..., "r"/"w")] presents it (decoded, newlines
      translated to a single line feed);
    - [as_completed] yields every submitted future once, in an order the
      model takes as an input (a list of submission indices).
    Console output ([print], [sys.stdout.write], [input]) is not
    modelled; [print] is taken never to raise. *)

From stdpp Require Import gmap strings list.
From Stdlib Require Import ZArith NArith QArith Lia.

Local Open Scope string_scope.
Local Open Scope list_scope.
Local Open Scope Z_scope.

(* ===================================================================== *)
(** ** Python strings *)
(* ===================================================================== *)

Module PyStr.

(** A character is a code point, a string a list of them. *)
Abbreviation char := N (only parsing).
Abbreviation str := (list N) (only parsing).

(** A literal of the source, given by its ASCII text. *)
Definition py (s : string) : str :=
  List.map Ascii.N_of_ascii (String.list_ascii_of_string s).

Definition LF : char := 10%N.

Definition char_eqb (a b : char) : bool := N.eqb a b.

(** [str.isspace] on one character (CPython's whitespace table). *)
Definition isspace (c : char) : bool :=
  ((9 <=? c) && (c <=? 13) || (28 <=? c) && (c <=? 32)
   || (c =? 133) || (c =? 160) || (c =? 5760)
   || (8192 <=? c) && (c <=? 8202)
   || (c =? 8232) || (c =? 8233) || (c =? 8239) || (c =? 8287)
   || (c =? 12288))%N.

(** [s.lstrip()], [s.rstrip()], [s.strip()] with no argument. *)
Fixpoint lstrip (s : str) : str :=
  match s with
  | [] => []
  | c :: s' => if isspace c then lstrip s' else s
  end.

Definition rstrip (s : str) : str := rev (lstrip (rev s)).

Definition strip (s : str) : str := rstrip (lstrip s).

(** Truth value of a string: non-empty. *)
Definition truthy (s : str) : bool :=
  match s with [] => false | _ :: _ => true end.

(** Iterating a text file: the lines, each with its terminating line
    feed, the last one without when the text does not end in one. *)
Fixpoint readlines (s : str) : list str :=
  match s with
  | [] => []
  | c :: s' =>
      if char_eqb c LF then [c] :: readlines s'
      else match readlines s' with
           | [] => [[c]]
           | l :: ls => (c :: l) :: ls
           end
  end.

(** [for x in xs: f.write(x + "\n")] on a freshly truncated file. *)
Definition write_lines (xs : list str) : str :=
  concat (List.map (fun x => x ++ [LF]) xs).

End PyStr.
Export PyStr.

(* ===================================================================== *)
(** ** The proxy-list loader (proxy.py 63-65, proxy2.py 84-86) *)
(* ===================================================================== *)

(** [[line.strip() for line in f if line.strip()]] *)
Definition load_proxies (content : str) : list str :=
  flat_map (fun line => if truthy (strip line) then [strip line] else [])
           (readlines content).

(** The loader in the words of the specification: the lines of the file
    (the text between line feeds), those that are not blank, each with its
    surrounding whitespace removed. *)
Module LoaderSpec.

(** Split at line feeds; the terminators are dropped. *)
Fixpoint split_lf (cur : str) (s : str) : list str :=
  match s with
  | [] => [rev cur]
  | c :: s' => if char_eqb c LF then rev cur :: split_lf [] s'
               else split_lf (c :: cur) s'
  end.

Definition file_lines (content : str) : list str := split_lf [] content.

(** Empty or whitespace only. *)
Definition blank (line : str) : bool := forallb isspace line.

(** [t] is [s] without its surrounding whitespace. *)
Definition stripped_of (s t : str) : Prop :=
  exists l r, s = l ++ t ++ r
    /\ forallb isspace l = true /\ forallb isspace r = true
    /\ (forall c, head t = Some c -> isspace c = false)
    /\ (forall c, last t = Some c -> isspace c = false).

Definition nonblank_stripped (content : str) : list str :=
  List.map strip (List.filter (fun l => negb (blank l)) (file_lines content)).

End LoaderSpec.

(* ===================================================================== *)
(** ** Exceptions *)
(* ===================================================================== *)

Module Exc.

(** The exception classes the two scripts name, the other classes of
    [requests.exceptions] their handlers can meet, and [Other] for any
    further subclass of [Exception] that derives from none of those.
    Classes outside [Exception] ([KeyboardInterrupt], [SystemExit]) are
    not raised by a request in a worker thread and are left out. *)
Inductive class : Type :=
| Exception
| ValueError
| ZeroDivisionError
| RequestException
| ConnectionError
| ProxyError
| SSLError
| Timeout
| ConnectTimeout
| ReadTimeout
| Other (name : string).

(** [issubclass c d], after the class statements of [requests.exceptions]:
    [ConnectionError(RequestException)], [ProxyError(ConnectionError)],
    [SSLError(ConnectionError)], [Timeout(RequestException)],
    [ConnectTimeout(ConnectionError, Timeout)], [ReadTimeout(Timeout)]. *)
Definition issubclass (c d : class) : bool :=
  match d with
  | Exception => true
  | ValueError => match c with ValueError => true | _ => false end
  | ZeroDivisionError => match c with ZeroDivisionError => true | _ => false end
  | RequestException =>
      match c with
      | RequestException | ConnectionError | ProxyError | SSLError
      | Timeout | ConnectTimeout | ReadTimeout => true
      | _ => false
      end
  | ConnectionError =>
      match c with
      | ConnectionError | ProxyError | SSLError | ConnectTimeout => true
      | _ => false
      end
  | ProxyError => match c with ProxyError => true | _ => false end
  | SSLError => match c with SSLError => true | _ => false end
  | Timeout =>
      match c with
      | Timeout | ConnectTimeout | ReadTimeout => true
      | _ => false
      end
  | ConnectTimeout => match c with ConnectTimeout => true | _ => false end
  | ReadTimeout => match c with ReadTimeout => true | _ => false end
  | Other n => match c with Other m => String.eqb m n | _ => false end
  end.

(** An exception value is represented by its class; [isinstance e C]. *)
Definition isinstance (e : class) (C : class) : bool := issubclass e C.

End Exc.

(** How a call ends: with a value, or with an exception leaving it. *)
Inductive Res (A : Type) : Type :=
| Returned (a : A)
| Propagated (e : Exc.class).
Arguments Returned {A} a.
Arguments Propagated {A} e.

(* ===================================================================== *)
(** ** requests.get and the probe monad *)
(* ===================================================================== *)

(** The arguments of one [requests.get] call; [None] for a keyword
    argument the call does not pass. *)
Record Request : Type := mkRequest {
  url : str;
  proxies : gmap string str;
  timeout : Z;
  headers : gmap string str;
  allow_redirects : option bool;
  verify : option bool
}.

(** What the call gives back: a response object or an exception. *)
Inductive Outcome : Type :=
| Response (status_code : Z) (text : str)
| Raises (e : Exc.class).

Definition Trace : Type := list (Request * Outcome).

(** The network as one prober call sees it: the answer to a request may
    depend on the requests the call has already issued. *)
Definition Network : Type := Trace -> Request -> Outcome.

(** State monad over the trace of issued requests. *)
Definition Probe (A : Type) : Type := Network -> Trace -> A * Trace.

Definition ret {A} (a : A) : Probe A := fun _ tr => (a, tr).

Definition bind {A B} (m : Probe A) (k : A -> Probe B) : Probe B :=
  fun net tr => let '(a, tr') := m net tr in k a net tr'.

Notation "x <- m ;; k" := (bind m (fun x => k))
  (at level 100, m at next level, right associativity).

Definition requests_get (r : Request) : Probe Outcome :=
  fun net tr => let o := net tr r in (o, tr ++ [(r, o)]).

(** Run a prober call from an empty trace. *)
Definition run {A} (m : Probe A) (net : Network) : A * Trace := m net [].

(** ** Reading a trace *)

Definition status_200 (o : Outcome) : bool :=
  match o with
  | Response status_code _ => status_code =? 200
  | Raises _ => false
  end.

Definition raised (o : Outcome) : bool :=
  match o with Raises _ => true | Response _ _ => false end.

Definition requested (tr : Trace) : list str := List.map (fun x => url (fst x)) tr.

Definition outcomes (tr : Trace) : list Outcome := List.map snd tr.

(* ===================================================================== *)
(** ** The pool runner: main of both scripts *)
(* ===================================================================== *)

Abbreviation FileSystem := (gmap string (list N)) (only parsing).

(** How [main] ends: through the [FileNotFoundError] branch, with an
    exception no handler catches, or at its last statement. The
    exceptions followed are those of the calls and of the division; a
    failure to open or decode the input file other than its absence, a
    failure to write the output file and the closing [input()] lie
    outside the model. *)
Inductive Exit : Type :=
| InputMissing
| Uncaught (e : Exc.class)
| Completed.

Record Run : Type := mkRun {
  exit : Exit;
  working_proxies : list str;
  files : FileSystem
}.

(** [len(working_proxies)/total*100]: true division raises on a zero
    divisor; the quotient is kept as an exact rational. *)
Definition truediv (a b : Z) : Res Q :=
  if b =? 0 then Propagated Exc.ZeroDivisionError
  else Returned (a # Z.to_pos b)%Q.

Definition success_rate (working total : nat) : Res Q :=
  match truediv (Z.of_nat working) (Z.of_nat total) with
  | Returned q => Returned (q * 100)%Q
  | Propagated e => Propagated e
  end.

(** The [if working_proxies:] block that saves the list. *)
Definition save (output_file : string) (working : list str) (fs : FileSystem)
  : FileSystem :=
  match working with
  | [] => fs
  | _ :: _ => <[ output_file := write_lines working ]> fs
  end.

Section PoolRunner.

(** The tuple a checker returns, and its first two components. *)
Context {T : Type}.
Variable unpack : T -> bool * str.
Variable check : str -> Probe (Res T).
Variables input_file output_file : string.

(** [executor.submit(check, proxy) for proxy in proxies]: the future
    of the [i]-th proxy holds what its call ends with, run against the
    network as that call sees it. *)
Definition submit_all (nets : nat -> Network) (proxies : list str)
  : list (Res T) :=
  imap (fun i proxy => fst (run (check proxy) (nets i))) proxies.

(** The [for i, future in enumerate(as_completed(...))] loop over the
    futures in completion order. [future.result()] re-raises what the
    call raised; nothing in [main] catches it. An index that names no
    submitted future yields nothing. *)
Fixpoint collect (futures : list (Res T)) (order : list nat)
    (working : list str) : Res unit * list str :=
  match order with
  | [] => (Returned tt, working)
  | i :: rest =>
      match futures !! i with
      | None => collect futures rest working
      | Some (Propagated e) => (Propagated e, working)
      | Some (Returned t) =>
          let '(is_working, proxy) := unpack t in
          collect futures rest
            (if is_working then working ++ [proxy] else working)
      end
  end.

Definition pool_main (fs : FileSystem) (nets : nat -> Network)
    (order : list nat) : Run :=
  match fs !! input_file with
  | None => {| exit := InputMissing; working_proxies := []; files := fs |}
  | Some content =>
      let proxies := load_proxies content in
      let total := length proxies in
      let futures := submit_all nets proxies in
      match collect futures order [] with
      | (Propagated e, working) =>
          {| exit := Uncaught e; working_proxies := working; files := fs |}
      | (Returned _, working) =>
          match success_rate (length working) total with
          | Propagated e =>
              {| exit := Uncaught e; working_proxies := working; files := fs |}
          | Returned _ =>
              {| exit := Completed; working_proxies := working;
                 files := save output_file working fs |}
          end
      end
  end.

End PoolRunner.

(* ===================================================================== *)
(** ** proxy.py *)
(* ===================================================================== *)

Module Proxy.

Definition test_urls : list str :=
  [ py "http://httpbin.org/ip";
    py "https://api.ipify.org?format=json";
    py "http://icanhazip.com";
    py "https://checkip.amazonaws.com" ].

Definition user_agent : str :=
  py "Mozilla/5.0 (Windows NT 10.0; Win64; x64) AppleWebKit/537.36".

Definition request (proxies : gmap string str) (url : str) : Request :=
  {| url := url; proxies := proxies; timeout := 7;
     headers := {[ "User-Agent" := user_agent ]};
     allow_redirects := None; verify := None |}.

(** The [for url in test_urls] loop followed by [return False, proxy].
    [break] and the exhausted loop both reach that final return. The
    handlers are tried in the order of the source; their [print] calls
    and the unused [content] of the response are left out. *)
Fixpoint probe_urls (proxies : gmap string str) (proxy : str) (urls : list str)
  : Probe (Res (bool * str)) :=
  match urls with
  | [] => ret (Returned (false, proxy))
  | url :: rest =>
      o <- requests_get (request proxies url) ;;
      match o with
      | Response status_code text =>
          if status_code =? 200 then ret (Returned (true, proxy))
          else probe_urls proxies proxy rest
      | Raises e =>
          if Exc.isinstance e Exc.ConnectTimeout then ret (Returned (false, proxy))
          else if Exc.isinstance e Exc.ConnectionError then ret (Returned (false, proxy))
          else if Exc.isinstance e Exc.ProxyError then ret (Returned (false, proxy))
          else if Exc.isinstance e Exc.Exception then probe_urls proxies proxy rest
          else ret (Propagated e)
      end
  end.

Definition check_proxy_simple (proxy : str) : Probe (Res (bool * str)) :=
  let proxies : gmap string str := {[ "http" := proxy; "https" := proxy ]} in
  probe_urls proxies proxy test_urls.

(** [ThreadPoolExecutor(max_workers=30)] *)
Definition max_workers : nat := 30.
Definition input_file : string := "proxies.txt".
Definition output_file : string := "working_proxies.txt".

Definition main : FileSystem -> (nat -> Network) -> list nat -> Run :=
  pool_main (fun t => t) check_proxy_simple input_file output_file.

End Proxy.

(* ===================================================================== *)
(** ** urllib.parse.urlparse *)
(* ===================================================================== *)

(** The fields of the parse result the model computes; [None] stands for
    the call raising [ValueError]. *)
Record ParseResult : Type := mkParseResult { scheme : str; netloc : str }.

Definition UrlParse : Type := str -> option ParseResult.

(** The standard library's [urlsplit] (CPython 3.11) up to its check of
    square brackets in the network location, which [urlparse] calls
    first; the later checks of the bracketed host and of NFKC
    normalisation, which can only raise as well, are left out. *)
Module Urllib.

Definition in_range (lo hi c : char) : bool := ((lo <=? c) && (c <=? hi))%N.

Definition is_ascii_alpha (c : char) : bool :=
  in_range 65%N 90%N c || in_range 97%N 122%N c.

(** [scheme_chars]: letters, digits, [+], [-] and [.]. *)
Definition is_scheme_char (c : char) : bool :=
  is_ascii_alpha c || in_range 48%N 57%N c
  || (c =? 43)%N || (c =? 45)%N || (c =? 46)%N.

Definition lower (c : char) : char :=
  if in_range 65%N 90%N c then (c + 32)%N else c.

(** [url.lstrip(_WHATWG_C0_CONTROL_OR_SPACE)] *)
Fixpoint lstrip_c0 (s : str) : str :=
  match s with
  | [] => []
  | c :: s' => if (c <=? 32)%N then lstrip_c0 s' else s
  end.

(** Tab, carriage return and line feed are removed everywhere. *)
Definition remove_unsafe (s : str) : str :=
  List.filter (fun c => negb ((c =? 9) || (c =? 13) || (c =? 10))%N) s.

(** Split at the first occurrence of [d]: the text before and after. *)
Fixpoint split_at (d : char) (s : str) : option (str * str) :=
  match s with
  | [] => None
  | c :: s' =>
      if char_eqb c d then Some ([], s')
      else match split_at d s' with
           | Some (a, b) => Some (c :: a, b)
           | None => None
           end
  end.

Definition is_netloc_delim (c : char) : bool :=
  ((c =? 47) || (c =? 63) || (c =? 35))%N.

Fixpoint take_netloc (s : str) : str :=
  match s with
  | [] => []
  | c :: s' => if is_netloc_delim c then [] else c :: take_netloc s'
  end.

Definition contains (d : char) (s : str) : bool := existsb (char_eqb d) s.

Definition split_scheme (u : str) : str * str :=
  match split_at 58%N u with
  | Some (c :: before, after) =>
      if is_ascii_alpha c && forallb is_scheme_char (c :: before)
      then (List.map lower (c :: before), after)
      else ([], u)
  | _ => ([], u)
  end.

Definition urlparse : UrlParse := fun url =>
  let u := remove_unsafe (lstrip_c0 url) in
  let '(sch, rest) := split_scheme u in
  match rest with
  | 47%N :: 47%N :: after =>
      let nl := take_netloc after in
      if (contains 91%N nl && negb (contains 93%N nl))
         || (contains 93%N nl && negb (contains 91%N nl))
      then None
      else Some {| scheme := sch; netloc := nl |}
  | _ => Some {| scheme := sch; netloc := [] |}
  end.

End Urllib.

(* ===================================================================== *)
(** ** proxy2.py *)
(* ===================================================================== *)

Module Proxy2.

Definition test_sites : list (str * str) :=
  [ (py "https://www.google.com", py "Google");
    (py "https://www.wikipedia.org", py "Wikipedia");
    (py "http://example.com", py "Example.com") ].

Definition user_agent : str :=
  py "Mozilla/5.0 (Windows NT 10.0; Win64; x64) AppleWebKit/537.36 (KHTML, like Gecko) Chrome/120.0.0.0 Safari/537.36".

Definition request (proxies : gmap string str) (url : str) : Request :=
  {| url := url; proxies := proxies; timeout := 10;
     headers := {[ "User-Agent" := user_agent ]};
     allow_redirects := Some true; verify := Some true |}.

(** What follows the site name in an entry of [results['errors']]; the
    text of the entry is not rendered. *)
Inductive Reason : Type :=
| StatusCode (status_code : Z)
| SSL_Error
| Proxy_Error
| Timeout_
| Connection_Failed
| TypeName (e : Exc.class).

(** The [results] dictionary. *)
Record Results : Type := mkResults {
  passed : Z;
  failed : Z;
  errors : list (str * Reason)
}.

Definition pass (r : Results) : Results :=
  {| passed := passed r + 1; failed := failed r; errors := errors r |}.

Definition fail (name : str) (why : Reason) (r : Results) : Results :=
  {| passed := passed r; failed := failed r + 1;
     errors := errors r ++ [(name, why)] |}.

(** The [for url, name in test_sites] loop, updating [results]; the
    handlers are tried in the order of the source. *)
Fixpoint probe_sites (proxies : gmap string str) (sites : list (str * str))
    (results : Results) : Probe (Res Results) :=
  match sites with
  | [] => ret (Returned results)
  | (url, name) :: rest =>
      o <- requests_get (request proxies url) ;;
      match o with
      | Response status_code text =>
          if status_code =? 200
          then probe_sites proxies rest (pass results)
          else probe_sites proxies rest (fail name (StatusCode status_code) results)
      | Raises e =>
          if Exc.isinstance e Exc.SSLError
          then probe_sites proxies rest (fail name SSL_Error results)
          else if Exc.isinstance e Exc.ProxyError
          then probe_sites proxies rest (fail name Proxy_Error results)
          else if Exc.isinstance e Exc.ConnectTimeout
          then probe_sites proxies rest (fail name Timeout_ results)
          else if Exc.isinstance e Exc.ConnectionError
          then probe_sites proxies rest (fail name Connection_Failed results)
          else if Exc.isinstance e Exc.Exception
          then probe_sites proxies rest (fail name (TypeName e) results)
          else ret (Propagated e)
      end
  end.

(** [urlparse(proxy)] is called before the [try] statement, so what it
    raises leaves the function; [proxy_type] is computed and not used
    again. The closing [print] calls are left out. *)
Definition check_proxy_thorough (urlparse : UrlParse) (proxy : str)
  : Probe (Res (bool * str * Results)) :=
  match urlparse proxy with
  | None => ret (Propagated Exc.ValueError)
  | Some parsed =>
      let proxy_type := if truthy (scheme parsed) then scheme parsed else py "http" in
      let proxies : gmap string str := {[ "http" := proxy; "https" := proxy ]} in
      r <- probe_sites proxies test_sites
             {| passed := 0; failed := 0; errors := [] |} ;;
      match r with
      | Propagated e => ret (Propagated e)
      | Returned results =>
          let is_working :=
            (passed results =? Z.of_nat (length test_sites))
            && (failed results =? 0) in
          ret (Returned (is_working, proxy, results))
      end
  end.

(** [ThreadPoolExecutor(max_workers=10)] *)
Definition max_workers : nat := 10.
Definition input_file : string := "working_proxies.txt".
Definition output_file : string := "verified_working_proxies.txt".

(** [is_working, proxy, results = future.result()] *)
Definition unpack (t : bool * str * Results) : bool * str :=
  let '(is_working, proxy, results) := t in (is_working, proxy).

Definition main (urlparse : UrlParse)
  : FileSystem -> (nat -> Network) -> list nat -> Run :=
  pool_main unpack (check_proxy_thorough urlparse) input_file output_file.

End Proxy2.

(** ** Sample networks and inputs *)

(** Every request is answered with status 200. *)
Definition net_200 : Network := fun _ _ => Response 200 (py "ok").

(** Every request fails to connect. *)
Definition net_refused : Network := fun _ _ => Raises Exc.ConnectionError.

(** A line with an opening square bracket and no closing one. *)
Definition unmatched_bracket : str := py "http://[".

(* ===================================================================== *)
(** ** Vocabulary of the statements *)
(* ===================================================================== *)

(** A string without a line feed. *)
Definition no_LF (s : str) : Prop := Forall (fun c => c <> LF) s.

(** The outcome and the trace of a prober call started on a fresh trace. *)
Definition result {A} (m : Probe A) (net : Network) : A := fst (run m net).
Definition trace {A} (m : Probe A) (net : Network) : Trace := snd (run m net).

(** Every outcome in the trace is the network's answer at that point. *)
Definition answered_by (net : Network) (before tr : Trace) : Prop :=
  forall i r o, tr !! i = Some (r, o) -> o = net (before ++ take i tr) r.

(** An exception of one of the three classes whose handlers [break]. *)
Definition breaks (o : Outcome) : bool :=
  match o with
  | Raises e =>
      Exc.isinstance e Exc.ConnectTimeout
      || Exc.isinstance e Exc.ConnectionError
      || Exc.isinstance e Exc.ProxyError
  | Response _ _ => false
  end.

(** A status other than 200, or an exception of no such class. *)
Definition moves_on (o : Outcome) : bool :=
  negb (status_200 o) && negb (breaks o).

(** The short-circuit reading of the loop: which requests a call over
    [urls] issues, in order, and what it returns. *)
Inductive simple_steps (proxies : gmap string str) (proxy : str)
  : list str -> Trace -> Res (bool * str) -> Prop :=
| steps_exhausted :
    simple_steps proxies proxy [] [] (Returned (false, proxy))
| steps_200 u rest o :
    status_200 o = true ->
    simple_steps proxies proxy (u :: rest)
                 [(Proxy.request proxies u, o)] (Returned (true, proxy))
| steps_break u rest o :
    breaks o = true ->
    simple_steps proxies proxy (u :: rest)
                 [(Proxy.request proxies u, o)] (Returned (false, proxy))
| steps_next u rest o tr res :
    moves_on o = true ->
    simple_steps proxies proxy rest tr res ->
    simple_steps proxies proxy (u :: rest)
                 ((Proxy.request proxies u, o) :: tr) res.

(** How many requests of a trace were answered with status 200, and how
    many were not (another status, or an exception). *)
Definition count_200 (tr : Trace) : Z :=
  Z.of_nat (length (List.filter status_200 (outcomes tr))).

Definition count_not_200 (tr : Trace) : Z :=
  Z.of_nat (length (List.filter (fun o => negb (status_200 o)) (outcomes tr))).

Section PoolVocabulary.

Context {T : Type}.
Variable unpack : T -> bool * str.

(** What one future adds to [working_proxies]. *)
Definition passing (f : Res T) : list str :=
  match f with
  | Returned t => let '(is_working, proxy) := unpack t in
                  if is_working then [proxy] else []
  | Propagated _ => []
  end.

(** The futures [as_completed] yields for a completion order. *)
Definition yielded (futures : list (Res T)) (order : list nat) : list (Res T) :=
  omap (fun i => futures !! i) order.

Definition all_returned (futures : list (Res T)) : Prop :=
  Forall (fun f => exists t, f = Returned t) futures.

End PoolVocabulary.

(** A line of the file that is not blank. *)
Definition has_nonblank_line (content : str) : Prop :=
  exists line, line ∈ LoaderSpec.file_lines content /\ LoaderSpec.blank line = false.

(** The two scripts. *)
Inductive Script : Type :=
| ProxyPy
| Proxy2Py (urlparse : UrlParse).

Definition script_input (s : Script) : string :=
  match s with
  | ProxyPy => Proxy.input_file
  | Proxy2Py _ => Proxy2.input_file
  end.

Definition script_main (s : Script)
  : FileSystem -> (nat -> Network) -> list nat -> Run :=
  match s with
  | ProxyPy => Proxy.main
  | Proxy2Py urlparse => Proxy2.main urlparse
  end.

(** The lines of a file, as a set; [None] when the file does not exist. *)
Definition file_line_set (fs : FileSystem) (name : string) : option (gset (list N)) :=
  (fun content => list_to_set (readlines content)) <$> fs !! name.

(** A two-line input file: a plain address and the unmatched bracket. *)
Definition two_lines : str := write_lines [py "10.0.0.1:80"; unmatched_bracket].

(** ** Further vocabulary *)

Definition script_output (s : Script) : string :=
  match s with
  | ProxyPy => Proxy.output_file
  | Proxy2Py _ => Proxy2.output_file
  end.

(** An entry of a proxy list as the loader produces it: not empty, on
    one line, without surrounding whitespace. *)
Definition clean_entry (x : str) : Prop :=
  x <> [] /\ no_LF x /\ strip x = x.

(** A string without a carriage return, the other character the text
    layer reads as a line break. *)
Definition no_CR (s : str) : Prop := Forall (fun c => c <> 13%N) s.

(** The names of the sites, in order, whose probe was not answered with
    status 200. *)
Fixpoint failed_site_names (sites : list (str * str)) (os : list Outcome)
  : list str :=
  match sites, os with
  | (_, name) :: sites', o :: os' =>
      if status_200 o then failed_site_names sites' os'
      else name :: failed_site_names sites' os'
  | _, _ => []
  end.

Section ProgressLine.

Context {T : Type}.
Variable unpack : T -> bool * str.


End ProgressLine.

(* ===================================================================== *)
(** * Properties *)
(* ===================================================================== *)

(** ** Stripping *)

Lemma isspace_LF : isspace LF = true.
Proof. reflexivity. Qed.

Lemma lstrip_blank (s : str) : forallb isspace s = true -> lstrip s = [].
Proof.
  induction s as [|c s IH]; simpl; [reflexivity|].
  intros H. apply andb_prop in H as [Hc Hs]. rewrite Hc. auto.
Qed.

Lemma lstrip_nil_blank (s : str) : lstrip s = [] -> forallb isspace s = true.
Proof.
  induction s as [|c s IH]; simpl; [reflexivity|].
  destruct (isspace c); simpl; [exact IH | discriminate].
Qed.

Lemma lstrip_split (s : str) :
  exists l, s = l ++ lstrip s /\ forallb isspace l = true.
Proof.
  induction s as [|c s [l [Hl Hw]]]; simpl.
  - exists []. split; reflexivity.
  - destruct (isspace c) eqn:Hc.
    + exists (c :: l). simpl. rewrite Hc, Hw. split; [congruence | reflexivity].
    + exists []. split; reflexivity.
Qed.

Lemma lstrip_head (s : str) (c : char) :
  head (lstrip s) = Some c -> isspace c = false.
Proof.
  induction s as [|d s IH]; simpl; [discriminate|].
  destruct (isspace d) eqn:Hd; [exact IH|].
  simpl. intros [= <-]. exact Hd.
Qed.

Lemma lstrip_app (a b : str) :
  lstrip (a ++ b) = if forallb isspace a then lstrip b else lstrip a ++ b.
Proof.
  induction a as [|c a IH]; simpl; [reflexivity|].
  destruct (isspace c); simpl; [exact IH | reflexivity].
Qed.

Lemma forallb_rev {A} (f : A -> bool) (l : list A) :
  forallb f (rev l) = forallb f l.
Proof.
  induction l as [|x l IH]; simpl; [reflexivity|].
  rewrite forallb_app, IH. simpl. rewrite andb_true_r. apply andb_comm.
Qed.

Lemma head_rev_last {A} (l : list A) : head (rev l) = last l.
Proof.
  induction l as [|x l IH] using rev_ind; [reflexivity|].
  rewrite rev_app_distr, last_snoc. reflexivity.
Qed.

Lemma rstrip_split (s : str) :
  exists r, s = rstrip s ++ r /\ forallb isspace r = true.
Proof.
  unfold rstrip. destruct (lstrip_split (rev s)) as [l [Hl Hw]].
  exists (rev l). split.
  - rewrite <- rev_app_distr, <- Hl, rev_involutive. reflexivity.
  - rewrite forallb_rev. exact Hw.
Qed.

Lemma rstrip_last (s : str) (c : char) :
  last (rstrip s) = Some c -> isspace c = false.
Proof.
  unfold rstrip. rewrite <- head_rev_last, rev_involutive. apply lstrip_head.
Qed.

Lemma rstrip_snoc_space (s : str) (c : char) :
  isspace c = true -> rstrip (s ++ [c]) = rstrip s.
Proof.
  intros Hc. unfold rstrip. rewrite rev_app_distr. simpl. rewrite Hc. reflexivity.
Qed.

Lemma strip_blank (s : str) : forallb isspace s = true -> strip s = [].
Proof. intros H. unfold strip. rewrite lstrip_blank by exact H. reflexivity. Qed.

Lemma strip_nil_blank (s : str) : strip s = [] -> forallb isspace s = true.
Proof.
  unfold strip. intros H.
  destruct (rstrip_split (lstrip s)) as [r [Hr Hw]]. rewrite H in Hr. simpl in Hr.
  destruct (lstrip_split s) as [l [Hl Hwl]].
  rewrite Hl, forallb_app, Hwl, Hr, Hw. reflexivity.
Qed.

Lemma truthy_strip (s : str) : truthy (strip s) = negb (LoaderSpec.blank s).
Proof.
  unfold LoaderSpec.blank. destruct (strip s) eqn:E; simpl.
  - rewrite (strip_nil_blank s E). reflexivity.
  - destruct (forallb isspace s) eqn:B; [|reflexivity].
    rewrite (strip_blank s B) in E. discriminate.
Qed.

Lemma strip_snoc_LF (s : str) : strip (s ++ [LF]) = strip s.
Proof.
  unfold strip. rewrite lstrip_app.
  destruct (forallb isspace s) eqn:B.
  - rewrite (lstrip_blank s B). reflexivity.
  - apply rstrip_snoc_space, isspace_LF.
Qed.

Lemma strip_stripped_of (s : str) : LoaderSpec.stripped_of s (strip s).
Proof.
  unfold LoaderSpec.stripped_of, strip.
  destruct (lstrip_split s) as [l [Hl Hwl]].
  destruct (rstrip_split (lstrip s)) as [r [Hr Hwr]].
  exists l, r. repeat split; try assumption.
  - rewrite <- Hr. exact Hl.
  - intros c Hc. apply (lstrip_head s). rewrite Hr.
    destruct (rstrip (lstrip s)); [discriminate | exact Hc].
  - apply rstrip_last.
Qed.

(** A whitespace prefix followed by a non-space character is determined
    by the whole string. *)
Lemma space_prefix_unique (l l' : str) (c c' : char) (t t' : str) :
  forallb isspace l = true -> forallb isspace l' = true ->
  isspace c = false -> isspace c' = false ->
  l ++ c :: t = l' ++ c' :: t' -> l = l' /\ c :: t = c' :: t'.
Proof.
  revert l'. induction l as [|x l IH]; intros [|x' l'] Hl Hl' Hc Hc' E; simpl in *.
  - split; [reflexivity | exact E].
  - injection E as -> _. apply andb_prop in Hl' as [Hx _]. congruence.
  - injection E as -> _. apply andb_prop in Hl as [Hx _]. congruence.
  - injection E as -> E. apply andb_prop in Hl as [_ Hl].
    apply andb_prop in Hl' as [_ Hl'].
    destruct (IH l' Hl Hl' Hc Hc' E) as [-> E']. split; [reflexivity | exact E'].
Qed.

Lemma stripped_of_unique (s t t' : str) :
  LoaderSpec.stripped_of s t -> LoaderSpec.stripped_of s t' -> t = t'.
Proof.
  intros (l & r & E & Hl & Hr & Hh & Hla) (l' & r' & E' & Hl' & Hr' & Hh' & Hla').
  destruct t as [|c t], t' as [|c' t']; [reflexivity| | |].
  - exfalso. assert (B : forallb isspace s = true)
      by (rewrite E; simpl; rewrite forallb_app, Hl, Hr; reflexivity).
    rewrite E' in B. rewrite !forallb_app in B. simpl in B.
    rewrite (Hh' c' eq_refl) in B. rewrite andb_false_r in B. discriminate.
  - exfalso. assert (B : forallb isspace s = true)
      by (rewrite E'; simpl; rewrite forallb_app, Hl', Hr'; reflexivity).
    rewrite E in B. rewrite !forallb_app in B. simpl in B.
    rewrite (Hh c eq_refl) in B. rewrite andb_false_r in B. discriminate.
  - assert (E2 : l ++ c :: (t ++ r) = l' ++ c' :: (t' ++ r')).
    { rewrite E in E'. exact E'. }
    apply space_prefix_unique in E2 as [_ E2];
      [| assumption | assumption | apply Hh; reflexivity | apply Hh'; reflexivity].
    (* the same argument from the right end, on the reversed strings *)
    assert (E3 : rev r ++ rev (c :: t) = rev r' ++ rev (c' :: t')).
    { rewrite <- !rev_app_distr. f_equal. exact E2. }
    destruct (rev (c :: t)) as [|d u] eqn:Ru.
    { apply (f_equal (@length _)) in Ru. rewrite length_rev in Ru. discriminate. }
    destruct (rev (c' :: t')) as [|d' u'] eqn:Ru'.
    { apply (f_equal (@length _)) in Ru'. rewrite length_rev in Ru'. discriminate. }
    assert (Hd : isspace d = false).
    { apply Hla. rewrite <- head_rev_last, Ru. reflexivity. }
    assert (Hd' : isspace d' = false).
    { apply Hla'. rewrite <- head_rev_last, Ru'. reflexivity. }
    apply space_prefix_unique in E3 as [_ E3];
      [| rewrite forallb_rev; assumption | rewrite forallb_rev; assumption
       | assumption | assumption].
    rewrite <- Ru, <- Ru' in E3.
    apply (f_equal (@rev _)) in E3. rewrite !rev_involutive in E3. exact E3.
Qed.

(** ** Lines of a text *)

Lemma no_LF_nil : no_LF [].
Proof. constructor. Qed.

Lemma char_eqb_LF_false (c : char) : c <> LF -> char_eqb c LF = false.
Proof. intros H. apply N.eqb_neq. exact H. Qed.

Lemma readlines_line (p s : str) :
  no_LF p -> readlines (p ++ LF :: s) = (p ++ [LF]) :: readlines s.
Proof.
  induction 1 as [|c p Hc Hp IH]; simpl; [reflexivity|].
  rewrite (char_eqb_LF_false c Hc), IH. reflexivity.
Qed.

Lemma readlines_last (p : str) : no_LF p -> p <> [] -> readlines p = [p].
Proof.
  induction 1 as [|c p Hc Hp IH]; intros Hne; [congruence|].
  simpl. rewrite (char_eqb_LF_false c Hc).
  destruct p as [|d p]; [reflexivity|].
  rewrite IH by discriminate. reflexivity.
Qed.

Lemma readlines_app_line (p s : str) :
  readlines ((p ++ [LF]) ++ s) = readlines (p ++ [LF]) ++ readlines s.
Proof.
  induction p as [|c p IH]; simpl; [reflexivity|].
  destruct (char_eqb c LF); simpl.
  - rewrite IH. reflexivity.
  - rewrite IH. destruct (readlines (p ++ [LF])) as [|l ls] eqn:E; [|reflexivity].
    exfalso. clear -E. induction p as [|d p IHp]; simpl in E; [discriminate|].
    destruct (char_eqb d LF); [discriminate|].
    destruct (readlines (p ++ [LF])); [auto | discriminate].
Qed.

Lemma split_lf_no_LF (cur s : str) :
  no_LF cur -> Forall no_LF (LoaderSpec.split_lf cur s).
Proof.
  revert cur. induction s as [|c s IH]; intros cur Hcur; simpl.
  - constructor; [|constructor]. apply Forall_rev. exact Hcur.
  - destruct (char_eqb c LF) eqn:E.
    + constructor; [apply Forall_rev; exact Hcur | apply IH; constructor].
    + apply IH. constructor; [|exact Hcur]. apply N.eqb_neq. exact E.
Qed.

Lemma strip_no_LF (s : str) : no_LF s -> no_LF (strip s).
Proof.
  intros H. destruct (strip_stripped_of s) as (l & r & E & _).
  unfold no_LF in *. rewrite E in H.
  apply Forall_app in H as [_ H]. apply Forall_app in H as [H _]. exact H.
Qed.

(** The comprehension over the lines that start with the pending,
    unterminated text [p]. *)
Lemma load_proxies_from (p s : str) :
  no_LF p ->
  load_proxies (p ++ s)
  = List.map strip (List.filter (fun l => negb (LoaderSpec.blank l))
                                (LoaderSpec.split_lf (rev p) s)).
Proof.
  revert p. induction s as [|c s IH]; intros p Hp.
  - rewrite app_nil_r. cbn [LoaderSpec.split_lf]. rewrite rev_involutive.
    unfold load_proxies. destruct p as [|d p]; [reflexivity|].
    rewrite readlines_last by (auto; discriminate).
    remember (d :: p) as q eqn:Eq. clear Eq. cbn [flat_map List.filter].
    rewrite app_nil_r, truthy_strip.
    destruct (negb (LoaderSpec.blank q)); reflexivity.
  - cbn [LoaderSpec.split_lf]. destruct (char_eqb c LF) eqn:E.
    + apply N.eqb_eq in E. subst c. unfold load_proxies.
      rewrite readlines_line by exact Hp. cbn [flat_map List.filter].
      rewrite rev_involutive, strip_snoc_LF, truthy_strip.
      specialize (IH [] no_LF_nil). cbn [app rev] in IH.
      unfold load_proxies in IH.
      rewrite IH. destruct (negb (LoaderSpec.blank p)); reflexivity.
    + assert (Hp' : no_LF (p ++ [c])).
      { apply Forall_app. split; [exact Hp|]. constructor; [|constructor].
        apply N.eqb_neq. exact E. }
      specialize (IH (p ++ [c]) Hp'). rewrite <- app_assoc in IH. simpl in IH.
      rewrite IH, rev_app_distr. reflexivity.
Qed.

Lemma load_proxies_nonblank_stripped (content : str) :
  load_proxies content = LoaderSpec.nonblank_stripped content.
Proof. apply (load_proxies_from [] content). constructor. Qed.

(** Every loaded proxy is non-empty, free of line feeds and already
    stripped. *)
Lemma load_proxies_elem (content p : str) :
  p ∈ load_proxies content ->
  p <> [] /\ no_LF p /\ strip p = p.
Proof.
  rewrite load_proxies_nonblank_stripped. unfold LoaderSpec.nonblank_stripped.
  rewrite list_elem_of_In, in_map_iff. intros (l & <- & Hin).
  apply filter_In in Hin as [Hin Hnb].
  assert (Hl : no_LF l).
  { pose proof (split_lf_no_LF [] content no_LF_nil) as F.
    rewrite Forall_forall in F. apply F. apply list_elem_of_In. exact Hin. }
  split; [|split].
  - intros E. rewrite <- truthy_strip, E in Hnb. discriminate.
  - apply strip_no_LF. exact Hl.
  - apply (stripped_of_unique (strip l)); [apply strip_stripped_of|].
    destruct (strip_stripped_of l) as (a & b & _ & _ & _ & Hh & Hla).
    exists [], []. rewrite app_nil_r. repeat split; assumption.
Qed.

(** ** check_proxy_simple *)

(** One [except C] clause: case on whether the first handler left in
    the goal catches [e]; [caught] closes the case where it does. *)
Ltac try_handler e caught :=
  match goal with
  | |- context [if Exc.isinstance e ?C then _ else _] =>
      destruct (Exc.isinstance e C); [caught|]
  end.

Lemma isinstance_Exception (e : Exc.class) : Exc.isinstance e Exc.Exception = true.
Proof. reflexivity. Qed.

Lemma answered_by_cons net before r o tr :
  o = net before r ->
  answered_by net (before ++ [(r, o)]) tr ->
  answered_by net before ((r, o) :: tr).
Proof.
  intros Ho H [|i] r' o' Hi; simpl in *.
  - injection Hi as <- <-. rewrite app_nil_r. exact Ho.
  - rewrite (H i r' o' Hi), <- app_assoc. reflexivity.
Qed.

Lemma answered_by_nil net before : answered_by net before [].
Proof. intros [|i] r o Hi; discriminate. Qed.

Lemma breaks_unfold (e : Exc.class) :
  breaks (Raises e)
  = Exc.isinstance e Exc.ConnectTimeout
    || Exc.isinstance e Exc.ConnectionError
    || Exc.isinstance e Exc.ProxyError.
Proof. reflexivity. Qed.

(** The three handlers that [break] catch the instances of
    [ConnectionError], of which the other two classes are subclasses. *)
Lemma breaks_ConnectionError (e : Exc.class) :
  breaks (Raises e) = Exc.issubclass e Exc.ConnectionError.
Proof. destruct e; reflexivity. Qed.

Lemma probe_urls_steps proxies proxy urls net tr :
  exists new,
    snd (Proxy.probe_urls proxies proxy urls net tr) = tr ++ new
    /\ answered_by net tr new
    /\ simple_steps proxies proxy urls new
         (fst (Proxy.probe_urls proxies proxy urls net tr)).
Proof.
  revert tr. induction urls as [|u rest IH]; intros tr; cbn [Proxy.probe_urls].
  - exists []. rewrite app_nil_r. repeat split; [apply answered_by_nil | constructor].
  - unfold bind, requests_get.
    set (r := Proxy.request proxies u).
    assert (Hstop : forall o b,
      net tr r = o -> (status_200 o = true /\ b = true \/ breaks o = true /\ b = false) ->
      exists new,
        snd (ret (Returned (b, proxy)) net (tr ++ [(r, o)])) = tr ++ new
        /\ answered_by net tr new
        /\ simple_steps proxies proxy (u :: rest) new
             (fst (ret (Returned (b, proxy)) net (tr ++ [(r, o)])))).
    { intros o b Ho Hb. exists [(r, o)]. repeat split.
      - apply answered_by_cons; [congruence | apply answered_by_nil].
      - destruct Hb as [[H ->]|[H ->]];
          [apply steps_200 | apply steps_break]; exact H. }
    assert (Hnext : forall o,
      net tr r = o -> moves_on o = true ->
      exists new,
        snd (Proxy.probe_urls proxies proxy rest net (tr ++ [(r, o)])) = tr ++ new
        /\ answered_by net tr new
        /\ simple_steps proxies proxy (u :: rest) new
             (fst (Proxy.probe_urls proxies proxy rest net (tr ++ [(r, o)])))).
    { intros o Ho Hm.
      destruct (IH (tr ++ [(r, o)])) as (new & Htr & Hans & Hst).
      exists ((r, o) :: new). repeat split.
      - rewrite Htr, <- app_assoc. reflexivity.
      - apply answered_by_cons; [congruence | exact Hans].
      - apply steps_next; assumption. }
    destruct (net tr r) as [code text|e] eqn:Enet.
    + destruct (code =? 200) eqn:Ecode.
      * apply Hstop; [reflexivity|]. left. split; [exact Ecode | reflexivity].
      * apply Hnext; [reflexivity|]. unfold moves_on. simpl. rewrite Ecode. reflexivity.
    + pose proof (breaks_unfold e) as Hb.
      do 3 (try_handler e ltac:(apply Hstop;
              [reflexivity | right; split; [exact Hb | reflexivity]])).
      rewrite isinstance_Exception.
      apply Hnext; [reflexivity|]. unfold moves_on. rewrite Hb. reflexivity.
Qed.

Lemma check_proxy_simple_steps proxy net :
  answered_by net [] (trace (Proxy.check_proxy_simple proxy) net)
  /\ simple_steps {[ "http" := proxy; "https" := proxy ]} proxy Proxy.test_urls
       (trace (Proxy.check_proxy_simple proxy) net)
       (result (Proxy.check_proxy_simple proxy) net).
Proof.
  unfold trace, result, run, Proxy.check_proxy_simple. cbv zeta.
  destruct (probe_urls_steps {[ "http" := proxy; "https" := proxy ]} proxy
              Proxy.test_urls net []) as (new & Htr & Hans & Hst).
  change ([] ++ new) with new in Htr. rewrite Htr. split; assumption.
Qed.

(** Consequences of the short-circuit reading. *)

Lemma simple_steps_returns proxies proxy urls tr res :
  simple_steps proxies proxy urls tr res ->
  exists b, res = Returned (b, proxy).
Proof. induction 1; eauto. Qed.

Lemma simple_steps_requested proxies proxy urls tr res :
  simple_steps proxies proxy urls tr res ->
  requested tr = take (length tr) urls.
Proof.
  induction 1 as [| | |u rest o tr res Hm Hst IH]; simpl; try reflexivity.
  f_equal. exact IH.
Qed.

Lemma simple_steps_length proxies proxy urls tr res :
  simple_steps proxies proxy urls tr res ->
  (length tr <= length urls)%nat /\ (urls <> [] -> (1 <= length tr)%nat).
Proof.
  induction 1 as [| | |u rest o tr res Hm Hst [IH _]]; simpl; split; intros; try lia.
  congruence.
Qed.


Lemma simple_steps_no_200 proxies proxy urls tr res :
  simple_steps proxies proxy urls tr res ->
  Forall (fun o => status_200 o = false) (outcomes tr) ->
  res = Returned (false, proxy).
Proof.
  induction 1 as [|u rest o H2| |u rest o tr res Hm Hst IH]; intros Hall;
    try reflexivity.
  - inversion Hall as [|? ? Ho _]; subst. simpl in Ho. congruence.
  - inversion Hall; subst. auto.
Qed.

(** ** check_proxy_thorough *)

Lemma count_cons_200 r o tr :
  status_200 o = true ->
  count_200 ((r, o) :: tr) = 1 + count_200 tr
  /\ count_not_200 ((r, o) :: tr) = count_not_200 tr.
Proof.
  intros H. unfold count_200, count_not_200, outcomes. simpl. rewrite H. simpl.
  split; lia.
Qed.

Lemma count_cons_not_200 r o tr :
  status_200 o = false ->
  count_200 ((r, o) :: tr) = count_200 tr
  /\ count_not_200 ((r, o) :: tr) = 1 + count_not_200 tr.
Proof.
  intros H. unfold count_200, count_not_200, outcomes. simpl. rewrite H. simpl.
  split; lia.
Qed.

Lemma count_total (tr : Trace) :
  count_200 tr + count_not_200 tr = Z.of_nat (length tr).
Proof.
  induction tr as [|[r o] tr IH]; [reflexivity|].
  destruct (status_200 o) eqn:E.
  - destruct (count_cons_200 r o tr E) as [-> ->]. simpl length. lia.
  - destruct (count_cons_not_200 r o tr E) as [-> ->]. simpl length. lia.
Qed.

Lemma count_nonneg (tr : Trace) : 0 <= count_200 tr /\ 0 <= count_not_200 tr.
Proof. unfold count_200, count_not_200. lia. Qed.

Lemma count_not_200_zero (tr : Trace) :
  count_not_200 tr = 0 <-> Forall (fun o => status_200 o = true) (outcomes tr).
Proof.
  induction tr as [|[r o] tr IH].
  - split; [constructor | reflexivity].
  - destruct (status_200 o) eqn:E.
    + destruct (count_cons_200 r o tr E) as [_ ->]. rewrite IH. simpl.
      split; [intros Hall; constructor; assumption
             | intros Hall; inversion Hall; assumption].
    + destruct (count_cons_not_200 r o tr E) as [_ ->].
      pose proof (count_nonneg tr) as Hnn. split; [lia|].
      intros Hall. inversion Hall; subst. simpl in *. congruence.
Qed.

Lemma count_200_zero (tr : Trace) :
  count_200 tr = 0 <-> Forall (fun o => status_200 o = false) (outcomes tr).
Proof.
  induction tr as [|[r o] tr IH].
  - split; [constructor | reflexivity].
  - destruct (status_200 o) eqn:E.
    + destruct (count_cons_200 r o tr E) as [-> _].
      pose proof (count_nonneg tr) as Hnn. split; [lia|].
      intros Hall. inversion Hall; subst. simpl in *. congruence.
    + destruct (count_cons_not_200 r o tr E) as [-> _]. rewrite IH. simpl.
      split; [intros Hall; constructor; assumption
             | intros Hall; inversion Hall; assumption].
Qed.

Lemma all_200_or_not (tr : Trace) :
  Forall (fun o => status_200 o = true) (outcomes tr)
  \/ Exists (fun o => status_200 o = false) (outcomes tr).
Proof.
  induction tr as [|[r o] tr [IH|IH]]; simpl.
  - left. constructor.
  - destruct (status_200 o) eqn:E.
    + left. constructor; assumption.
    + right. apply Exists_cons_hd. exact E.
  - right. apply Exists_cons_tl. exact IH.
Qed.

Lemma probe_sites_spec proxies sites results net tr :
  exists new results',
    Proxy2.probe_sites proxies sites results net tr = (Returned results', tr ++ new)
    /\ answered_by net tr new
    /\ List.map fst new = List.map (fun s => Proxy2.request proxies (fst s)) sites
    /\ Proxy2.passed results' = Proxy2.passed results + count_200 new
    /\ Proxy2.failed results' = Proxy2.failed results + count_not_200 new
    /\ Z.of_nat (length (Proxy2.errors results'))
       = Z.of_nat (length (Proxy2.errors results)) + count_not_200 new.
Proof.
  revert results tr. induction sites as [|[u name] rest IH]; intros results tr;
    cbn [Proxy2.probe_sites].
  - exists [], results. rewrite app_nil_r. unfold ret, count_200, count_not_200.
    simpl. repeat split; try lia. apply answered_by_nil.
  - unfold bind, requests_get.
    set (r := Proxy2.request proxies u).
    assert (Hnext : forall o upd,
      net tr r = o ->
      (status_200 o = true /\ upd = Proxy2.pass results
       \/ status_200 o = false /\ exists why, upd = Proxy2.fail name why results) ->
      exists new results',
        Proxy2.probe_sites proxies rest upd net (tr ++ [(r, o)])
        = (Returned results', tr ++ new)
        /\ answered_by net tr new
        /\ List.map fst new
           = List.map (fun s => Proxy2.request proxies (fst s)) ((u, name) :: rest)
        /\ Proxy2.passed results' = Proxy2.passed results + count_200 new
        /\ Proxy2.failed results' = Proxy2.failed results + count_not_200 new
        /\ Z.of_nat (length (Proxy2.errors results'))
           = Z.of_nat (length (Proxy2.errors results)) + count_not_200 new).
    { intros o upd Ho Hupd.
      destruct (IH upd (tr ++ [(r, o)])) as (new & res' & Hrun & Hans & Hreq & Hp & Hf & He).
      exists ((r, o) :: new), res'. rewrite Hrun, <- app_assoc.
      split; [reflexivity|]. split; [apply answered_by_cons; [congruence | exact Hans]|].
      split; [simpl; f_equal; exact Hreq|].
      destruct Hupd as [[H ->]|[H [why ->]]].
      - destruct (count_cons_200 r o new H) as [-> ->]. simpl in *. lia.
      - destruct (count_cons_not_200 r o new H) as [-> ->]. simpl in *.
        rewrite length_app in He. simpl in He. lia. }
    destruct (net tr r) as [code text|e] eqn:Enet.
    + destruct (code =? 200) eqn:Ecode.
      * apply Hnext; [reflexivity|]. left. split; [exact Ecode | reflexivity].
      * apply Hnext; [reflexivity|]. right. split; [exact Ecode | eauto].
    + do 4 (try_handler e ltac:(apply Hnext;
              [reflexivity | right; split; [reflexivity | eauto]])).
      rewrite isinstance_Exception.
      apply Hnext; [reflexivity | right; split; [reflexivity | eauto]].
Qed.

(** The call on an address [urlparse] accepts: three probes, then the
    verdict from the two tallies. *)
Lemma check_proxy_thorough_parsed urlparse proxy parsed net :
  urlparse proxy = Some parsed ->
  exists tr results,
    run (Proxy2.check_proxy_thorough urlparse proxy) net
    = (Returned ((Proxy2.passed results =? 3) && (Proxy2.failed results =? 0),
                 proxy, results), tr)
    /\ answered_by net [] tr
    /\ requested tr = List.map fst Proxy2.test_sites
    /\ Proxy2.passed results = count_200 tr
    /\ Proxy2.failed results = count_not_200 tr
    /\ Z.of_nat (length (Proxy2.errors results)) = count_not_200 tr.
Proof.
  intros Hparse. unfold run, Proxy2.check_proxy_thorough. rewrite Hparse. cbv zeta.
  unfold bind.
  destruct (probe_sites_spec {[ "http" := proxy; "https" := proxy ]}
              Proxy2.test_sites
              {| Proxy2.passed := 0; Proxy2.failed := 0; Proxy2.errors := [] |}
              net []) as (new & res' & Hrun & Hans & Hreq & Hp & Hf & He).
  rewrite Hrun. change ([] ++ new) with new. exists new, res'.
  split; [reflexivity|]. split; [exact Hans|].
  split.
  { unfold requested. rewrite <- (map_map fst url), Hreq, map_map. reflexivity. }
  simpl in Hp, Hf, He. repeat split; assumption.
Qed.

(** The call on an address [urlparse] rejects: the [ValueError] leaves
    the function before the [try] statement is reached. *)
Lemma check_proxy_thorough_unparsed urlparse proxy net :
  urlparse proxy = None ->
  run (Proxy2.check_proxy_thorough urlparse proxy) net
  = (Propagated Exc.ValueError, []).
Proof.
  intros Hparse. unfold run, Proxy2.check_proxy_thorough. rewrite Hparse. reflexivity.
Qed.

Lemma urlparse_unmatched_bracket : Urllib.urlparse unmatched_bracket = None.
Proof. reflexivity. Qed.

(** ** The collecting loop *)

Section PoolFacts.

Context {T : Type}.
Variable unpack : T -> bool * str.

Lemma collect_returned futures order working :
  all_returned futures ->
  collect unpack futures order working
  = (Returned tt, working ++ flat_map (passing unpack) (yielded futures order)).
Proof.
  intros Hall. revert working.
  induction order as [|i order IH]; intros working; cbn [collect].
  - simpl. rewrite app_nil_r. reflexivity.
  - unfold yielded. cbn [omap list_omap]. fold (yielded futures order).
    destruct (futures !! i) as [f|] eqn:Ei.
    + unfold all_returned in Hall. rewrite Forall_forall in Hall.
      destruct (Hall f) as [t ->]; [eapply list_elem_of_lookup_2; exact Ei|].
      cbn [flat_map passing]. destruct (unpack t) as [b p].
      rewrite IH. destruct b; [rewrite <- app_assoc|]; reflexivity.
    + apply IH.
Qed.

Lemma yielded_seq (before futures : list (Res T)) :
  yielded (before ++ futures) (seq (length before) (length futures)) = futures.
Proof.
  revert before. induction futures as [|f futures IH]; intros before; [reflexivity|].
  unfold yielded. cbn [length seq omap list_omap].
  rewrite list_lookup_middle by reflexivity.
  f_equal. specialize (IH (before ++ [f])).
  rewrite length_app, <- app_assoc in IH. simpl in IH.
  replace (length before + 1)%nat with (S (length before)) in IH by lia.
  exact IH.
Qed.

Lemma yielded_perm (futures : list (Res T)) (order : list nat) :
  order ≡ₚ seq 0 (length futures) -> yielded futures order ≡ₚ futures.
Proof.
  intros Hperm. unfold yielded. rewrite Hperm.
  pose proof (yielded_seq [] futures) as E. unfold yielded in E. simpl in E.
  rewrite E. reflexivity.
Qed.

(** Once every future has returned, the loop ends normally with the
    proxies of the passing futures, each future counted once. *)
Lemma collect_perm futures order :
  all_returned futures ->
  order ≡ₚ seq 0 (length futures) ->
  fst (collect unpack futures order []) = Returned tt
  /\ snd (collect unpack futures order []) ≡ₚ flat_map (passing unpack) futures.
Proof.
  intros Hall Hperm. rewrite collect_returned by exact Hall. simpl.
  split; [reflexivity|]. apply Permutation_flat_map, yielded_perm, Hperm.
Qed.

(** An exception leaving the loop is the exception of some future. *)
Lemma collect_propagated futures order working e w :
  collect unpack futures order working = (Propagated e, w) ->
  Propagated e ∈ futures.
Proof.
  revert working. induction order as [|i order IH]; intros working; cbn [collect].
  - discriminate.
  - destruct (futures !! i) as [[t|e']|] eqn:Ei.
    + destruct (unpack t) as [b p]. apply IH.
    + intros [= -> _]. eapply list_elem_of_lookup_2. exact Ei.
    + apply IH.
Qed.

Lemma collect_no_futures order working :
  collect unpack [] order working = (Returned tt, working).
Proof. induction order as [|i order IH]; cbn [collect]; [reflexivity | exact IH]. Qed.

End PoolFacts.

(** ** Writing and reading back the list *)

Lemma readlines_write_lines (xs : list str) :
  Forall no_LF xs ->
  readlines (write_lines xs) = List.map (fun x => x ++ [LF]) xs.
Proof.
  induction 1 as [|x xs Hx Hxs IH]; [reflexivity|].
  unfold write_lines in *. cbn [List.map concat].
  rewrite <- app_assoc. cbn [app]. rewrite readlines_line by exact Hx.
  rewrite IH. reflexivity.
Qed.

Lemma readlines_write_lines_flat (xs : list str) :
  readlines (write_lines xs) = flat_map (fun x => readlines (x ++ [LF])) xs.
Proof.
  induction xs as [|x xs IH]; [reflexivity|].
  unfold write_lines in *. cbn [List.map concat flat_map].
  rewrite readlines_app_line, IH. reflexivity.
Qed.

(** Loading a file written from stripped, non-empty, one-line entries
    gives the entries back: the output of proxy.py is a faithful input
    of proxy2.py. *)
Lemma load_proxies_write_lines (xs : list str) :
  Forall (fun x => x <> [] /\ no_LF x /\ strip x = x) xs ->
  load_proxies (write_lines xs) = xs.
Proof.
  intros H. unfold load_proxies. rewrite readlines_write_lines.
  - induction H as [|x xs (Hne & _ & Hs) _ IH]; [reflexivity|].
    cbn [List.map flat_map]. rewrite IH, strip_snoc_LF, Hs.
    destruct x; [congruence | reflexivity].
  - eapply Forall_impl; [exact H|]. intros x (_ & Hx & _). exact Hx.
Qed.

(** ** main *)

Lemma load_proxies_nonempty (content : str) :
  load_proxies content <> [] <-> has_nonblank_line content.
Proof.
  rewrite load_proxies_nonblank_stripped. unfold LoaderSpec.nonblank_stripped, has_nonblank_line.
  induction (LoaderSpec.file_lines content) as [|l ls IH]; cbn [List.filter List.map].
  - split; [congruence|]. intros (line & Hin & _). inversion Hin.
  - destruct (LoaderSpec.blank l) eqn:B; cbn [negb].
    + rewrite IH. split.
      * intros (line & Hin & Hb). exists line. split; [right; exact Hin | exact Hb].
      * intros (line & Hin & Hb). exists line. split; [|exact Hb].
        inversion Hin; subst; [congruence | assumption].
    + split; [|discriminate]. intros _. exists l. split; [left | exact B].
Qed.

Lemma success_rate_zero (working : nat) :
  success_rate working 0 = Propagated Exc.ZeroDivisionError.
Proof. reflexivity. Qed.

Lemma success_rate_positive (working total : nat) :
  (0 < total)%nat -> exists q, success_rate working total = Returned q.
Proof.
  intros H. unfold success_rate, truediv.
  destruct (Z.of_nat total =? 0) eqn:E; [apply Z.eqb_eq in E; lia|]. eauto.
Qed.

Section MainFacts.

Context {T : Type}.
Variable unpack : T -> bool * str.
Variable check : str -> Probe (Res T).
Variables input_file output_file : string.

Let main := pool_main unpack check input_file output_file.

(** No proxy loaded: the success rate divides by zero. *)
Lemma pool_main_empty fs nets order content :
  fs !! input_file = Some content ->
  load_proxies content = [] ->
  main fs nets order
  = {| exit := Uncaught Exc.ZeroDivisionError; working_proxies := []; files := fs |}.
Proof.
  intros Hin Hnil. unfold main, pool_main. rewrite Hin. cbv zeta.
  rewrite Hnil. unfold submit_all. cbn [imap]. rewrite collect_no_futures.
  reflexivity.
Qed.

(** Some proxy loaded and every call returned: [main] reaches its end
    and saves what it collected. *)
Lemma pool_main_returned fs nets order content :
  fs !! input_file = Some content ->
  load_proxies content <> [] ->
  all_returned (submit_all check nets (load_proxies content)) ->
  main fs nets order
  = let working :=
      flat_map (passing unpack)
               (yielded (submit_all check nets (load_proxies content)) order) in
    {| exit := Completed; working_proxies := working;
       files := save output_file working fs |}.
Proof.
  intros Hin Hne Hall. unfold main, pool_main. rewrite Hin. cbv zeta.
  rewrite collect_returned by exact Hall. cbn [app].
  destruct (success_rate_positive
              (length (flat_map (passing unpack)
                 (yielded (submit_all check nets (load_proxies content)) order)))
              (length (load_proxies content))) as [q ->]; [|reflexivity].
  destruct (load_proxies content); [congruence | simpl; lia].
Qed.

(** With a proxy loaded, only a call's own exception can end [main]
    early; the division does not raise. *)
Lemma pool_main_exit fs nets order content :
  fs !! input_file = Some content ->
  load_proxies content <> [] ->
  exit (main fs nets order) = Completed
  \/ exists e, exit (main fs nets order) = Uncaught e
               /\ Propagated e ∈ submit_all check nets (load_proxies content).
Proof.
  intros Hin Hne. unfold main, pool_main. rewrite Hin. cbv zeta.
  destruct (collect unpack _ order []) as [[[]|e] w] eqn:Ec.
  - destruct (success_rate_positive (length w) (length (load_proxies content)))
      as [q ->]; [|left; reflexivity].
    destruct (load_proxies content); [congruence | simpl; lia].
  - right. exists e. split; [reflexivity|]. eapply collect_propagated. exact Ec.
Qed.

End MainFacts.

(** Every future of proxy.py holds a returned pair for its own proxy. *)
Lemma simple_future nets proxies f :
  f ∈ submit_all Proxy.check_proxy_simple nets proxies ->
  exists b p, f = Returned (b, p) /\ p ∈ proxies.
Proof.
  unfold submit_all. intros Hf. apply elem_of_lookup_imap_1 in Hf as (i & p & -> & Hp).
  destruct (check_proxy_simple_steps p (nets i)) as [_ Hst].
  apply simple_steps_returns in Hst as [b Hb].
  exists b, p. split; [exact Hb | eapply list_elem_of_lookup_2; exact Hp].
Qed.

Lemma simple_futures_returned nets proxies :
  all_returned (submit_all Proxy.check_proxy_simple nets proxies).
Proof.
  apply Forall_forall. intros f Hf.
  destruct (simple_future nets proxies f Hf) as (b & p & -> & _). eauto.
Qed.

(** A future of proxy2.py holds a returned triple for its own proxy, or
    the [ValueError] of [urlparse]. *)
Lemma thorough_future urlparse nets proxies f :
  f ∈ submit_all (Proxy2.check_proxy_thorough urlparse) nets proxies ->
  (exists b p results, f = Returned (b, p, results) /\ p ∈ proxies)
  \/ (f = Propagated Exc.ValueError /\ exists p, p ∈ proxies /\ urlparse p = None).
Proof.
  unfold submit_all. intros Hf. apply elem_of_lookup_imap_1 in Hf as (i & p & -> & Hp).
  apply list_elem_of_lookup_2 in Hp.
  destruct (urlparse p) as [parsed|] eqn:Eparse.
  - destruct (check_proxy_thorough_parsed urlparse p parsed (nets i) Eparse)
      as (tr & results & -> & _).
    left. simpl. eauto 6.
  - rewrite (check_proxy_thorough_unparsed urlparse p (nets i) Eparse).
    right. simpl. eauto.
Qed.

(* ===================================================================== *)
(** * The claims *)
(* ===================================================================== *)

(** C4. The loader returns exactly the non-blank lines of the file, each
    with its surrounding whitespace removed, in file order: the list
    comprehension of the source equals the specification's reading
    [nonblank_stripped]; [strip] is the only way to remove the surrounding
    whitespace of a line; a blank line yields no entry and no entry is
    empty. *)
Theorem load_proxies_exactly_nonblank_lines (content : str) :
  load_proxies content = LoaderSpec.nonblank_stripped content
  /\ (forall line t, LoaderSpec.stripped_of line t <-> t = strip line)
  /\ (forall line, LoaderSpec.blank line = true -> strip line = [])
  /\ (forall p, p ∈ load_proxies content -> p <> []).
Proof.
  split; [apply load_proxies_nonblank_stripped|].
  split; [|split].
  - intros line t. split.
    + intros H. apply (stripped_of_unique line); [exact H | apply strip_stripped_of].
    + intros ->. apply strip_stripped_of.
  - intros line. apply strip_blank.
  - intros p Hp. apply (load_proxies_elem content p Hp).
Qed.


(** C8. [check_proxy_thorough] classifies a proxy as working exactly
    when all three test sites returned status 200. Whenever it returns,
    the three sites were probed once each, [passed] counts the probes
    answered with 200 and [failed] all the others (another status or an
    exception), so every probe is in exactly one tally; the verdict is
    [passed == 3 and failed == 0], and it is a failure as soon as one
    probe was not answered with 200. The call returns unless [urlparse]
    raised, in which case no site was probed. *)
Theorem check_proxy_thorough_working_iff_all_200
    (urlparse : UrlParse) (proxy : str) (net : Network) :
  let tr := trace (Proxy2.check_proxy_thorough urlparse proxy) net in
  let res := result (Proxy2.check_proxy_thorough urlparse proxy) net in
  ((exists results, res = Returned (true, proxy, results))
   <-> requested tr = List.map fst Proxy2.test_sites
       /\ Forall (fun o => status_200 o = true) (outcomes tr))
  /\ (forall w p results, res = Returned (w, p, results) ->
        p = proxy
        /\ answered_by net [] tr
        /\ requested tr = List.map fst Proxy2.test_sites
        /\ Proxy2.passed results = count_200 tr
        /\ Proxy2.failed results = count_not_200 tr
        /\ Proxy2.passed results + Proxy2.failed results = 3
        /\ w = (Proxy2.passed results =? 3) && (Proxy2.failed results =? 0)
        /\ (w = false <-> Exists (fun o => status_200 o = false) (outcomes tr)))
  /\ ((exists w results, res = Returned (w, proxy, results))
      \/ (res = Propagated Exc.ValueError /\ tr = [] /\ urlparse proxy = None)).
Proof.
  intros tr res. subst tr res. unfold trace, result.
  destruct (urlparse proxy) as [parsed|] eqn:Eparse.
  - destruct (check_proxy_thorough_parsed urlparse proxy parsed net Eparse)
      as (tr & results & -> & Hans & Hreq & Hp & Hf & _).
    cbn [fst snd].
    assert (Hlen : Z.of_nat (length tr) = 3).
    { apply (f_equal (@length _)) in Hreq. unfold requested in Hreq.
      rewrite !length_map in Hreq. rewrite Hreq. reflexivity. }
    pose proof (count_total tr) as Htot. pose proof (count_nonneg tr) as [Hn1 Hn2].
    assert (Hw : (Proxy2.passed results =? 3) && (Proxy2.failed results =? 0) = true
                 <-> Forall (fun o => status_200 o = true) (outcomes tr)).
    { rewrite <- count_not_200_zero, andb_true_iff, !Z.eqb_eq. lia. }
    split; [|split].
    + split.
      * intros [r [= Hb _]]. split; [exact Hreq | apply Hw; exact Hb].
      * intros [_ Hall]. exists results. apply Hw in Hall. rewrite Hall. reflexivity.
    + intros w p r [= <- <- <-].
      repeat split; try assumption; try lia.
      * intros Hfalse. destruct (all_200_or_not tr) as [Hall|E]; [|exact E].
        apply Hw in Hall. congruence.
      * intros Hex. apply not_true_is_false. intros Eb.
        apply Hw in Eb. apply Exists_exists in Hex as (o & Ho & Hs).
        rewrite Forall_forall in Eb. specialize (Eb o Ho). congruence.
    + left. eauto.
  - rewrite (check_proxy_thorough_unparsed urlparse proxy net Eparse). cbn [fst snd].
    split; [|split].
    + split; [intros [r Hr]; discriminate Hr | intros [Hreq _]; discriminate Hreq].
    + intros w p r Hr. discriminate Hr.
    + right. auto.
Qed.

(** C6. The aggregation is order-independent. For the pass/fail results
    of the submitted calls and any two completion orders of them, the
    collecting loop ends normally both times, the two working lists are
    permutations of each other and hence equal as sets, and saving either
    of them leaves the output file with the same set of lines (or leaves
    it untouched both times when no proxy passed). *)
Theorem aggregation_order_independent {T : Type} (unpack : T -> bool * str)
    (results : list T) (order1 order2 : list nat)
    (output_file : string) (fs : FileSystem) :
  order1 ≡ₚ seq 0 (length results) ->
  order2 ≡ₚ seq 0 (length results) ->
  let futures := List.map Returned results in
  let run1 := collect unpack futures order1 [] in
  let run2 := collect unpack futures order2 [] in
  fst run1 = Returned tt /\ fst run2 = Returned tt
  /\ snd run1 ≡ₚ snd run2
  /\ list_to_set (snd run1) =@{gset (list N)} list_to_set (snd run2)
  /\ file_line_set (save output_file (snd run1) fs) output_file
     = file_line_set (save output_file (snd run2) fs) output_file.
Proof.
  intros H1 H2 futures run1 run2.
  assert (Hall : all_returned futures).
  { apply Forall_forall. intros f Hf. apply list_elem_of_In, in_map_iff in Hf
      as (t & <- & _). eauto. }
  assert (Hlen : length futures = length results) by apply length_map.
  destruct (collect_perm unpack futures order1 Hall) as [E1 P1];
    [rewrite Hlen; exact H1|].
  destruct (collect_perm unpack futures order2 Hall) as [E2 P2];
    [rewrite Hlen; exact H2|].
  fold run1 in E1, P1. fold run2 in E2, P2.
  assert (P : snd run1 ≡ₚ snd run2) by (rewrite P1, P2; reflexivity).
  split; [exact E1|]. split; [exact E2|]. split; [exact P|].
  split; [apply (list_to_set_perm_L (C:=gset (list N))); exact P|].
  unfold file_line_set, save.
  destruct (snd run1) as [|x1 w1] eqn:W1, (snd run2) as [|x2 w2] eqn:W2.
  - reflexivity.
  - apply Permutation_nil_l in P. discriminate P.
  - apply Permutation_nil_r in P. discriminate P.
  - rewrite !lookup_insert_eq. cbn [fmap option_fmap option_map]. f_equal.
    rewrite !readlines_write_lines_flat.
    apply (list_to_set_perm_L (C:=gset (list N))).
    apply Permutation_flat_map. exact P.
Qed.

Lemma aggregation_order_independent_witness :
  let results := [(true, py "10.0.0.1:80"); (false, py "10.0.0.2:80");
                  (true, py "10.0.0.3:80")] in
  let futures := List.map Returned results in
  list_to_set (snd (collect (fun t => t) futures [2; 0; 1]%nat []))
  =@{gset (list N)} list_to_set (snd (collect (fun t => t) futures [0; 1; 2]%nat [])).
Proof.
  intros results futures.
  refine (proj1 (proj2 (proj2 (proj2
    (aggregation_order_independent (fun t => t) results [2; 0; 1]%nat [0; 1; 2]%nat
       Proxy.output_file ∅ _ _))))).
  - simpl. apply perm_trans with [0; 2; 1]%nat;
      [apply perm_swap | apply perm_skip, perm_swap].
  - simpl. reflexivity.
Defined.

(** C10. When the input file exists, the success-rate division of
    either script raises [ZeroDivisionError] exactly when the file has no
    non-blank line: with a non-blank line the total is strictly positive,
    the division returns for any number of working proxies and [main]
    does not end with that error; without one the total is zero and
    [main] ends with it, the division being unguarded. *)
Theorem success_rate_division_needs_nonblank_line (script : Script)
    (fs : FileSystem) (nets : nat -> Network) (order : list nat) (content : str) :
  fs !! script_input script = Some content ->
  let total := length (load_proxies content) in
  (has_nonblank_line content ->
     (0 < total)%nat
     /\ (forall working, exists q, success_rate working total = Returned q)
     /\ exit (script_main script fs nets order) <> Uncaught Exc.ZeroDivisionError)
  /\ (~ has_nonblank_line content ->
     total = 0%nat
     /\ exit (script_main script fs nets order) = Uncaught Exc.ZeroDivisionError).
Proof.
  intros Hin total. split.
  - intros Hline. apply load_proxies_nonempty in Hline.
    assert (Hpos : (0 < total)%nat).
    { subst total. destruct (load_proxies content); [congruence | simpl; lia]. }
    split; [exact Hpos|]. split.
    + intros working. apply success_rate_positive. exact Hpos.
    + destruct script as [|urlparse]; cbn [script_main script_input] in *.
      * destruct (pool_main_exit (fun t => t) Proxy.check_proxy_simple
                    Proxy.input_file Proxy.output_file fs nets order content Hin Hline)
          as [E|(e & E & He)]; unfold Proxy.main; rewrite E; [discriminate|].
        apply simple_future in He as (b & p & He & _). discriminate He.
      * destruct (pool_main_exit Proxy2.unpack (Proxy2.check_proxy_thorough urlparse)
                    Proxy2.input_file Proxy2.output_file fs nets order content Hin Hline)
          as [E|(e & E & He)]; unfold Proxy2.main; rewrite E; [discriminate|].
        apply thorough_future in He as [(b & p & r & He & _)|[He _]];
          [discriminate He|]. injection He as ->. discriminate.
  - intros Hnone.
    assert (Hnil : load_proxies content = []).
    { destruct (load_proxies content) eqn:E; [reflexivity|].
      exfalso. apply Hnone, load_proxies_nonempty. rewrite E. discriminate. }
    split; [subst total; rewrite Hnil; reflexivity|].
    destruct script as [|urlparse]; cbn [script_main script_input] in *.
    + unfold Proxy.main.
      rewrite (pool_main_empty _ _ _ _ fs nets order content Hin Hnil). reflexivity.
    + unfold Proxy2.main.
      rewrite (pool_main_empty _ _ _ _ fs nets order content Hin Hnil). reflexivity.
Qed.

Lemma success_rate_division_needs_nonblank_line_witness :
  let fs : FileSystem := {[ Proxy.input_file := py "10.0.0.1:80" ]} in
  (0 < length (load_proxies (py "10.0.0.1:80")))%nat
  /\ exit (Proxy.main fs (fun _ => net_200) [0%nat])
     <> Uncaught Exc.ZeroDivisionError.
Proof.
  intros fs.
  assert (Hline : has_nonblank_line (py "10.0.0.1:80")).
  { exists (py "10.0.0.1:80"). split; [left | reflexivity]. }
  destruct (proj1 (success_rate_division_needs_nonblank_line ProxyPy fs
                     (fun _ => net_200) [0%nat] (py "10.0.0.1:80") eq_refl) Hline)
    as (Hpos & _ & Hexit).
  split; [exact Hpos | exact Hexit].
Defined.

(** ** What holds of the probers where [urlparse] does not interfere *)

Lemma check_proxy_simple_returns (proxy : str) (net : Network) :
  exists b, result (Proxy.check_proxy_simple proxy) net = Returned (b, proxy).
Proof.
  destruct (check_proxy_simple_steps proxy net) as [_ Hst].
  eapply simple_steps_returns. exact Hst.
Qed.


Lemma raised_not_200 (os : list Outcome) :
  Forall (fun o => raised o = true) os -> Forall (fun o => status_200 o = false) os.
Proof.
  intros Hall. eapply Forall_impl; [exact Hall|].
  intros [code text|e] H; [discriminate H | reflexivity].
Qed.

Lemma check_proxy_simple_all_raise (proxy : str) (net : Network) :
  Forall (fun o => raised o = true)
         (outcomes (trace (Proxy.check_proxy_simple proxy) net)) ->
  result (Proxy.check_proxy_simple proxy) net = Returned (false, proxy).
Proof.
  intros H. destruct (check_proxy_simple_steps proxy net) as [_ Hst].
  apply (simple_steps_no_200 _ _ _ _ _ Hst), raised_not_200, H.
Qed.

Lemma test_urls_NoDup : NoDup Proxy.test_urls.
Proof. apply (bool_decide_unpack _). vm_compute. exact I. Qed.

Lemma test_sites_NoDup : NoDup (List.map fst Proxy2.test_sites).
Proof. apply (bool_decide_unpack _). vm_compute. exact I. Qed.

(** Between one and four requests, to the test URLs in their order, no
    URL twice. *)
Lemma check_proxy_simple_requests (proxy : str) (net : Network) :
  let tr := trace (Proxy.check_proxy_simple proxy) net in
  (1 <= length tr <= 4)%nat
  /\ requested tr = take (length tr) Proxy.test_urls
  /\ NoDup (requested tr)
  /\ (forall u, u ∈ requested tr -> u ∈ Proxy.test_urls).
Proof.
  intros tr. destruct (check_proxy_simple_steps proxy net) as [_ Hst]. fold tr in Hst.
  destruct (simple_steps_length _ _ _ _ _ Hst) as [Hle Hge].
  pose proof (simple_steps_requested _ _ _ _ _ Hst) as Hreq.
  split; [split; [apply Hge; discriminate | exact Hle]|].
  split; [exact Hreq|]. rewrite Hreq. split.
  - pose proof test_urls_NoDup as Hnd.
    rewrite <- (take_drop (length tr) Proxy.test_urls) in Hnd.
    apply NoDup_app in Hnd as [Hnd _]. exact Hnd.
  - intros u Hu. rewrite <- (take_drop (length tr) Proxy.test_urls).
    apply elem_of_app. left. exact Hu.
Qed.


Lemma check_proxy_thorough_all_raise urlparse proxy parsed net :
  urlparse proxy = Some parsed ->
  Forall (fun o => raised o = true)
         (outcomes (trace (Proxy2.check_proxy_thorough urlparse proxy) net)) ->
  exists results,
    result (Proxy2.check_proxy_thorough urlparse proxy) net
    = Returned (false, proxy, results)
    /\ Proxy2.passed results = 0 /\ Proxy2.failed results = 3.
Proof.
  intros Hparse. unfold trace, result.
  destruct (check_proxy_thorough_parsed urlparse proxy parsed net Hparse)
    as (tr & results & -> & _ & Hreq & Hp & Hf & _).
  cbn [fst snd]. intros Hall. exists results.
  apply raised_not_200, count_200_zero in Hall.
  pose proof (count_total tr) as Htot.
  assert (Hlen : Z.of_nat (length tr) = 3).
  { apply (f_equal (@length _)) in Hreq. unfold requested in Hreq.
    rewrite !length_map in Hreq. rewrite Hreq. reflexivity. }
  assert (H0 : Proxy2.passed results = 0) by lia.
  assert (H3 : Proxy2.failed results = 3) by lia.
  rewrite H0, H3. auto.
Qed.

(** Exactly three requests, one to each test site, in their order. *)
Lemma check_proxy_thorough_requests urlparse proxy parsed net :
  urlparse proxy = Some parsed ->
  let tr := trace (Proxy2.check_proxy_thorough urlparse proxy) net in
  requested tr = List.map fst Proxy2.test_sites
  /\ length tr = 3%nat
  /\ NoDup (requested tr).
Proof.
  intros Hparse tr. subst tr. unfold trace.
  destruct (check_proxy_thorough_parsed urlparse proxy parsed net Hparse)
    as (tr & results & -> & _ & Hreq & _).
  cbn [snd]. split; [exact Hreq|]. split.
  - apply (f_equal (@length _)) in Hreq. unfold requested in Hreq.
    rewrite !length_map in Hreq. exact Hreq.
  - rewrite Hreq. exact test_sites_NoDup.
Qed.

(** ** What holds of main when every call returns *)

Section MainCollects.

Context {T : Type}.
Variable unpack : T -> bool * str.
Variable check : str -> Probe (Res T).
Variables input_file output_file : string.

(** The working list is the list of passing futures up to order, one
    entry for each; when it is not empty [main] reaches its end and the
    output file holds the list, one proxy per line and nothing else, in
    a form the loader reads back unchanged. *)
Lemma pool_main_collects fs nets order content :
  fs !! input_file = Some content ->
  let proxies := load_proxies content in
  let futures := submit_all check nets proxies in
  all_returned futures ->
  (forall p, p ∈ flat_map (passing unpack) futures -> p ∈ proxies) ->
  order ≡ₚ seq 0 (length proxies) ->
  let r := pool_main unpack check input_file output_file fs nets order in
  working_proxies r ≡ₚ flat_map (passing unpack) futures
  /\ (working_proxies r <> [] ->
      exit r = Completed
      /\ files r = <[ output_file := write_lines (working_proxies r) ]> fs
      /\ readlines (write_lines (working_proxies r))
         = List.map (fun p => p ++ [LF]) (working_proxies r)
      /\ load_proxies (write_lines (working_proxies r)) = working_proxies r).
Proof.
  intros Hin proxies futures Hall Hsub Hperm r.
  destruct proxies as [|p0 ps] eqn:Eproxies.
  - subst r. rewrite (pool_main_empty _ _ _ _ fs nets order content Hin Eproxies).
    cbn [working_proxies]. split; [reflexivity | congruence].
  - assert (Hne : load_proxies content <> []) by (fold proxies; congruence).
    subst r. rewrite (pool_main_returned _ _ _ _ fs nets order content Hin Hne);
      [|fold proxies; rewrite Eproxies; exact Hall].
    cbv zeta. cbn [working_proxies exit files].
    fold proxies. rewrite Eproxies. fold futures.
    assert (P : flat_map (passing unpack) (yielded futures order)
                ≡ₚ flat_map (passing unpack) futures).
    { apply Permutation_flat_map, yielded_perm.
      unfold futures, submit_all. rewrite length_imap. exact Hperm. }
    split; [exact P|]. intros Hw.
    assert (Hgood : Forall (fun x => x <> [] /\ no_LF x /\ strip x = x)
                      (flat_map (passing unpack) (yielded futures order))).
    { apply Forall_forall. intros x Hx. apply (load_proxies_elem content).
      fold proxies. rewrite Eproxies. apply Hsub. rewrite <- P. exact Hx. }
    split; [reflexivity|]. split.
    + unfold save. destruct (flat_map (passing unpack) (yielded futures order));
        [congruence | reflexivity].
    + split; [|apply load_proxies_write_lines; exact Hgood].
      apply readlines_write_lines.
      eapply Forall_impl; [exact Hgood|]. intros x (_ & Hx & _). exact Hx.
Qed.

End MainCollects.

(** proxy.py satisfies this for every input file, network and order. *)
Lemma proxy_main_collects fs nets order content :
  fs !! Proxy.input_file = Some content ->
  order ≡ₚ seq 0 (length (load_proxies content)) ->
  let futures := submit_all Proxy.check_proxy_simple nets (load_proxies content) in
  let r := Proxy.main fs nets order in
  working_proxies r ≡ₚ flat_map (passing (fun t => t)) futures
  /\ (working_proxies r <> [] ->
      exit r = Completed
      /\ files r = <[ Proxy.output_file := write_lines (working_proxies r) ]> fs
      /\ readlines (write_lines (working_proxies r))
         = List.map (fun p => p ++ [LF]) (working_proxies r)
      /\ load_proxies (write_lines (working_proxies r)) = working_proxies r).
Proof.
  intros Hin Hperm. unfold Proxy.main.
  apply (pool_main_collects _ _ _ _ fs nets order content Hin).
  - apply simple_futures_returned.
  - intros p Hp. apply list_elem_of_In, in_flat_map in Hp as (f & Hf & Hp).
    apply list_elem_of_In in Hf. apply simple_future in Hf as (b & q & -> & Hq).
    simpl in Hp. destruct b; [|destruct Hp].
    destruct Hp as [<-|[]]. exact Hq.
  - exact Hperm.
Qed.

(** proxy2.py satisfies it when [urlparse] accepts every loaded line. *)
Lemma proxy2_main_collects urlparse fs nets order content :
  fs !! Proxy2.input_file = Some content ->
  (forall p, p ∈ load_proxies content -> urlparse p <> None) ->
  order ≡ₚ seq 0 (length (load_proxies content)) ->
  let futures :=
    submit_all (Proxy2.check_proxy_thorough urlparse) nets (load_proxies content) in
  let r := Proxy2.main urlparse fs nets order in
  working_proxies r ≡ₚ flat_map (passing Proxy2.unpack) futures
  /\ (working_proxies r <> [] ->
      exit r = Completed
      /\ files r = <[ Proxy2.output_file := write_lines (working_proxies r) ]> fs
      /\ readlines (write_lines (working_proxies r))
         = List.map (fun p => p ++ [LF]) (working_proxies r)
      /\ load_proxies (write_lines (working_proxies r)) = working_proxies r).
Proof.
  intros Hin Hok Hperm. unfold Proxy2.main.
  assert (Hfut : forall f,
    f ∈ submit_all (Proxy2.check_proxy_thorough urlparse) nets (load_proxies content) ->
    exists b p results, f = Returned (b, p, results) /\ p ∈ load_proxies content).
  { intros f Hf. apply thorough_future in Hf as [H|(_ & p & Hp & Hnone)]; [exact H|].
    exfalso. exact (Hok p Hp Hnone). }
  apply (pool_main_collects _ _ _ _ fs nets order content Hin).
  - apply Forall_forall. intros f Hf. destruct (Hfut f Hf) as (b & p & r & -> & _). eauto.
  - intros p Hp. apply list_elem_of_In, in_flat_map in Hp as (f & Hf & Hp).
    apply list_elem_of_In in Hf. destruct (Hfut f Hf) as (b & q & r & -> & Hq).
    simpl in Hp. destruct b; [|destruct Hp].
    destruct Hp as [<-|[]]. exact Hq.
  - exact Hperm.
Qed.



(** ** The line [urlparse] rejects *)

(** C2, at the input where proxy2.py departs from it. On the address
    [http://[] with a network on which every request fails, no request of
    [check_proxy_thorough] does anything but raise, yet the call returns
    no failed classification: the [ValueError] of [urlparse], raised
    outside the [try] statement, reaches the pool runner. It does so on
    every network. [check_proxy_simple] on the same input returns
    [(False, proxy)]. *)
Theorem check_proxy_thorough_propagates_ValueError :
  let call := Proxy2.check_proxy_thorough Urllib.urlparse unmatched_bracket in
  Forall (fun o => raised o = true) (outcomes (trace call net_refused))
  /\ (forall net, result call net = Propagated Exc.ValueError)
  /\ result (Proxy.check_proxy_simple unmatched_bracket) net_refused
     = Returned (false, unmatched_bracket).
Proof.
  intros call. subst call. unfold trace, result. split; [|split].
  - rewrite (check_proxy_thorough_unparsed _ _ net_refused urlparse_unmatched_bracket).
    constructor.
  - intros net.
    rewrite (check_proxy_thorough_unparsed _ _ net urlparse_unmatched_bracket).
    reflexivity.
  - apply check_proxy_simple_all_raise. vm_compute. repeat constructor.
Qed.

(** C5, at the input where proxy2.py departs from it. On the address
    [http://[] [check_proxy_thorough] issues no request at all, on any
    network, where the claim promises at least one; [check_proxy_simple]
    issues its first request on the same input. *)
Theorem check_proxy_thorough_issues_no_request :
  (forall net,
     trace (Proxy2.check_proxy_thorough Urllib.urlparse unmatched_bracket) net = [])
  /\ ~ (1 <= length (trace (Proxy2.check_proxy_thorough Urllib.urlparse
                              unmatched_bracket) net_200))%nat
  /\ requested (trace (Proxy.check_proxy_simple unmatched_bracket) net_200)
     = take 1 Proxy.test_urls.
Proof.
  assert (H : forall net,
    trace (Proxy2.check_proxy_thorough Urllib.urlparse unmatched_bracket) net = []).
  { intros net. unfold trace.
    rewrite (check_proxy_thorough_unparsed _ _ net urlparse_unmatched_bracket).
    reflexivity. }
  split; [exact H|]. split; [rewrite H; simpl; lia|]. vm_compute. reflexivity.
Qed.

(** C3, at the input where proxy2.py departs from it. The input file
    holds a plain address and the line [http://[]; every request is
    answered with 200 and the call for the first line completes first.
    [main] of proxy2.py has collected the first proxy when
    [future.result()] raises the [ValueError] of the second call: the run
    ends there, the non-empty working list is not written and the output
    file does not exist. [main] of proxy.py on the same lines collects
    both and writes them, one per line. *)
Theorem proxy2_main_aborts_without_saving :
  let nets : nat -> Network := fun _ => net_200 in
  let r2 := Proxy2.main Urllib.urlparse {[ Proxy2.input_file := two_lines ]}
                        nets [0; 1]%nat in
  let r1 := Proxy.main {[ Proxy.input_file := two_lines ]} nets [0; 1]%nat in
  load_proxies two_lines = [py "10.0.0.1:80"; unmatched_bracket]
  /\ exit r2 = Uncaught Exc.ValueError
  /\ working_proxies r2 = [py "10.0.0.1:80"]
  /\ files r2 !! Proxy2.output_file = None
  /\ exit r1 = Completed
  /\ working_proxies r1 = [py "10.0.0.1:80"; unmatched_bracket]
  /\ files r1 !! Proxy.output_file = Some two_lines.
Proof.
  intros nets r2 r1. subst nets r2 r1.
  repeat split; vm_compute; reflexivity.
Qed.

(* ===================================================================== *)
(** * Further properties of the code *)
(* ===================================================================== *)

(** ** The probers *)



(** X2. [check_proxy_simple] issues between one and four requests, to
    the first test URLs in the order of the list, and no URL twice; a
    failed request is not retried. *)
Theorem check_proxy_simple_request_bounds (proxy : str) (net : Network) :
  let tr := trace (Proxy.check_proxy_simple proxy) net in
  (1 <= length tr <= 4)%nat
  /\ requested tr = take (length tr) Proxy.test_urls
  /\ NoDup (requested tr)
  /\ (forall u, u ∈ requested tr -> u ∈ Proxy.test_urls).
Proof. apply check_proxy_simple_requests. Qed.

(** The error list grows by the name of every site that fails, in the
    order of the probes. *)
Lemma probe_sites_errors proxies sites results net tr :
  exists new results',
    Proxy2.probe_sites proxies sites results net tr = (Returned results', tr ++ new)
    /\ length new = length sites
    /\ List.map fst (Proxy2.errors results')
       = List.map fst (Proxy2.errors results)
         ++ failed_site_names sites (outcomes new).
Proof.
  revert results tr. induction sites as [|[u name] rest IH]; intros results tr;
    cbn [Proxy2.probe_sites].
  - exists [], results. rewrite !app_nil_r. repeat split.
  - unfold bind, requests_get.
    set (r := Proxy2.request proxies u).
    assert (Hnext : forall o upd,
      (status_200 o = true /\ upd = Proxy2.pass results
       \/ status_200 o = false /\ exists why, upd = Proxy2.fail name why results) ->
      exists new results',
        Proxy2.probe_sites proxies rest upd net (tr ++ [(r, o)])
        = (Returned results', tr ++ new)
        /\ length new = length ((u, name) :: rest)
        /\ List.map fst (Proxy2.errors results')
           = List.map fst (Proxy2.errors results)
             ++ failed_site_names ((u, name) :: rest) (outcomes new)).
    { intros o upd Hupd.
      destruct (IH upd (tr ++ [(r, o)])) as (new & res' & Hrun & Hlen & He).
      exists ((r, o) :: new), res'. rewrite Hrun, <- app_assoc.
      split; [reflexivity|]. split; [simpl; rewrite Hlen; reflexivity|].
      rewrite He. cbn [outcomes List.map snd failed_site_names].
      destruct Hupd as [[H ->]|[H [why ->]]]; rewrite H; cbn [Proxy2.pass Proxy2.fail Proxy2.errors].
      - reflexivity.
      - rewrite map_app, <- app_assoc. reflexivity. }
    destruct (net tr r) as [code text|e].
    + destruct (code =? 200) eqn:Ecode.
      * apply Hnext. left. split; [exact Ecode | reflexivity].
      * apply Hnext. right. split; [exact Ecode | eauto].
    + do 4 (try_handler e ltac:(apply Hnext; right; split; [reflexivity | eauto])).
      rewrite isinstance_Exception.
      apply Hnext; right; split; [reflexivity | eauto].
Qed.

(** X4. When [check_proxy_thorough] returns, [results['errors']] holds
    one entry for every probe that was not answered with status 200 and
    none for the others: the entries name the failed sites in the order
    they were probed, their number is [results['failed']], and the proxy
    is reported as working exactly when the error list is empty. *)
Theorem check_proxy_thorough_errors_name_failed_sites
    (urlparse : UrlParse) (proxy : str) (net : Network)
    (w : bool) (p : str) (results : Proxy2.Results) :
  result (Proxy2.check_proxy_thorough urlparse proxy) net = Returned (w, p, results) ->
  let tr := trace (Proxy2.check_proxy_thorough urlparse proxy) net in
  List.map fst (Proxy2.errors results)
  = failed_site_names Proxy2.test_sites (outcomes tr)
  /\ Z.of_nat (length (Proxy2.errors results)) = Proxy2.failed results
  /\ (w = true <-> Proxy2.errors results = []).
Proof.
  unfold result, trace.
  destruct (urlparse proxy) as [parsed|] eqn:Eparse.
  - destruct (check_proxy_thorough_parsed urlparse proxy parsed net Eparse)
      as (tr0 & results0 & Hrun & _ & Hreq & Hp & Hf & Hlen).
    assert (Herr : List.map fst (Proxy2.errors results0)
                   = failed_site_names Proxy2.test_sites (outcomes tr0)).
    { revert Hrun. unfold run, Proxy2.check_proxy_thorough. rewrite Eparse.
      cbv zeta. unfold bind.
      destruct (probe_sites_errors {[ "http" := proxy; "https" := proxy ]}
                  Proxy2.test_sites
                  {| Proxy2.passed := 0; Proxy2.failed := 0; Proxy2.errors := [] |}
                  net []) as (new & res' & -> & _ & He).
      unfold ret. intros [= _ <- <-]. exact He. }
    rewrite Hrun. cbn [fst snd]. intros [= <- <- <-].
    split; [exact Herr|]. split; [rewrite Hf; exact Hlen|].
    split.
    + intros Hw. apply andb_prop in Hw as [_ Hz]. apply Z.eqb_eq in Hz.
      destruct (Proxy2.errors results0); [reflexivity|]. simpl in Hlen. lia.
    + intros Hnil. rewrite Hnil in Hlen. simpl in Hlen.
      pose proof (count_total tr0) as Htot.
      assert (Hthree : Z.of_nat (length tr0) = 3).
      { apply (f_equal (@length _)) in Hreq. unfold requested in Hreq.
        rewrite !length_map in Hreq. rewrite Hreq. reflexivity. }
      apply andb_true_intro. split; apply Z.eqb_eq; lia.
  - rewrite (check_proxy_thorough_unparsed urlparse proxy net Eparse).
    cbn [fst]. discriminate.
Qed.

Lemma check_proxy_thorough_errors_name_failed_sites_witness :
  exists results,
    result (Proxy2.check_proxy_thorough Urllib.urlparse (py "10.0.0.1:80")) net_refused
    = Returned (false, py "10.0.0.1:80", results)
    /\ List.map fst (Proxy2.errors results)
       = [py "Google"; py "Wikipedia"; py "Example.com"].
Proof.
  eexists. split; [vm_compute; reflexivity|].
  refine (proj1 (check_proxy_thorough_errors_name_failed_sites
                   Urllib.urlparse (py "10.0.0.1:80") net_refused _ _ _ _)).
  vm_compute. reflexivity.
Defined.

(** ** The loader and the saved list *)

Lemma split_lf_all_blank (cur s : str) :
  forallb LoaderSpec.blank (LoaderSpec.split_lf cur s)
  = forallb isspace (rev cur) && forallb isspace s.
Proof.
  revert cur. induction s as [|c s IH]; intros cur; cbn [LoaderSpec.split_lf].
  - simpl. unfold LoaderSpec.blank. reflexivity.
  - destruct (char_eqb c LF) eqn:E.
    + apply N.eqb_eq in E. subst c. cbn [forallb]. rewrite IH, isspace_LF.
      unfold LoaderSpec.blank. reflexivity.
    + rewrite IH. cbn [rev forallb]. rewrite forallb_app. cbn [forallb].
      rewrite andb_true_r, andb_assoc. reflexivity.
Qed.

Lemma filter_nonblank_nil (ls : list (list N)) :
  List.filter (fun l => negb (LoaderSpec.blank l)) ls = []
  <-> forallb LoaderSpec.blank ls = true.
Proof.
  induction ls as [|l ls IH]; simpl; [tauto|].
  destruct (LoaderSpec.blank l); simpl; [exact IH|].
  split; discriminate.
Qed.

(** X14. The loader finds no proxy exactly when the file consists of
    whitespace only (line feeds included), the empty file among them. *)
Theorem load_proxies_empty_iff_whitespace_only (content : str) :
  load_proxies content = [] <-> forallb isspace content = true.
Proof.
  rewrite load_proxies_nonblank_stripped. unfold LoaderSpec.nonblank_stripped.
  pose proof (split_lf_all_blank [] content) as E. cbn [rev forallb andb] in E.
  fold (LoaderSpec.file_lines content) in E. rewrite <- E, <- filter_nonblank_nil.
  destruct (List.filter _ (LoaderSpec.file_lines content)); simpl;
    split; (reflexivity || discriminate).
Qed.

Lemma load_proxies_clean (content : str) :
  Forall clean_entry (load_proxies content).
Proof.
  apply Forall_forall. intros p Hp. exact (load_proxies_elem content p Hp).
Qed.

Lemma filter_length_at_most {A} (f : A -> bool) (l : list A) :
  (length (List.filter f l) <= length l)%nat.
Proof.
  induction l as [|x l IH]; simpl; [lia|]. destruct (f x); simpl; lia.
Qed.

(** X12. Every entry the loader produces is non-empty, lies on one line
    and carries no surrounding whitespace; there are at most as many
    entries as the file has lines; and saving the loaded list and loading
    it again gives the same list. *)
Theorem load_proxies_entries_clean (content : str) :
  Forall clean_entry (load_proxies content)
  /\ (length (load_proxies content) <= length (LoaderSpec.file_lines content))%nat
  /\ load_proxies (write_lines (load_proxies content)) = load_proxies content.
Proof.
  split; [apply load_proxies_clean|]. split.
  - rewrite load_proxies_nonblank_stripped. unfold LoaderSpec.nonblank_stripped.
    rewrite length_map. apply filter_length_at_most.
  - apply load_proxies_write_lines, load_proxies_clean.
Qed.

(** X13. Writing a list of clean entries that hold no carriage return
    the way [main] saves it, one entry and a line feed each, and loading
    the text again gives the list back, in order; the text has exactly
    one line per entry. (A carriage return inside an entry would be read
    back as a line break.) *)
Theorem write_then_load_round_trip (xs : list (list N)) :
  Forall clean_entry xs ->
  Forall no_CR xs ->
  load_proxies (write_lines xs) = xs
  /\ readlines (write_lines xs) = List.map (fun x => x ++ [LF]) xs.
Proof.
  intros H _. split; [apply load_proxies_write_lines; exact H|].
  apply readlines_write_lines.
  eapply Forall_impl; [exact H|]. intros x (_ & Hx & _). exact Hx.
Qed.

Lemma write_then_load_round_trip_witness :
  load_proxies (write_lines [py "10.0.0.1:80"; py "socks5://10.0.0.2:1080"])
  = [py "10.0.0.1:80"; py "socks5://10.0.0.2:1080"].
Proof.
  refine (proj1 (write_then_load_round_trip
                   [py "10.0.0.1:80"; py "socks5://10.0.0.2:1080"] _ _)).
  - repeat constructor; try discriminate; vm_compute; congruence.
  - repeat constructor; discriminate.
Defined.

(** ** The collecting loop, whatever the futures hold *)

Section CollectPrefix.

Context {T : Type}.
Variable unpack : T -> bool * str.

(** The loop consumes the yielded futures up to the first one that
    raised, or all of them, and collects from the ones it consumed. *)
Lemma collect_prefix (futures : list (Res T)) (order : list nat)
    (working : list (list N)) :
  exists k,
    snd (collect unpack futures order working)
    = working ++ flat_map (passing unpack) (take k (yielded futures order))
    /\ all_returned (take k (yielded futures order))
    /\ match fst (collect unpack futures order working) with
       | Returned _ => take k (yielded futures order) = yielded futures order
       | Propagated e => yielded futures order !! k = Some (Propagated e)
       end.
Proof.
  revert working. induction order as [|i order IH]; intros working; cbn [collect].
  - exists 0%nat. simpl. rewrite app_nil_r. repeat split. constructor.
  - unfold yielded. cbn [omap list_omap]. fold (yielded futures order).
    destruct (futures !! i) as [[t|e]|] eqn:Ei; cbn [option_bind mbind].
    + destruct (unpack t) as [b p] eqn:Eu.
      destruct (IH (if b then working ++ [p] else working)) as (k & Hw & Hall & Hres).
      exists (S k). cbn [take flat_map passing]. rewrite Eu, Hw.
      split; [destruct b; [rewrite <- app_assoc|]; reflexivity|].
      split; [constructor; [eauto | exact Hall]|].
      destruct (fst (collect unpack futures order _)); [f_equal|]; exact Hres.
    + exists 0%nat. simpl. rewrite app_nil_r. repeat split. constructor.
    + apply IH.
Qed.

Lemma passing_length (f : Res T) : (length (passing unpack f) <= 1)%nat.
Proof.
  destruct f as [t|e]; simpl; [|lia]. destruct (unpack t) as [[] p]; simpl; lia.
Qed.

Lemma flat_map_passing_length (fs : list (Res T)) :
  (length (flat_map (passing unpack) fs) <= length fs)%nat.
Proof.
  induction fs as [|f fs IH]; simpl; [lia|].
  rewrite length_app. pose proof (passing_length f). lia.
Qed.

Lemma yielded_elem (futures : list (Res T)) (order : list nat) (f : Res T) :
  f ∈ yielded futures order -> f ∈ futures.
Proof.
  unfold yielded. rewrite list_elem_of_omap. intros (i & _ & Hi).
  eapply list_elem_of_lookup_2. exact Hi.
Qed.

(** Futures are yielded at most once each when no index repeats. *)
Lemma yielded_length (futures : list (Res T)) (order : list nat) :
  NoDup order -> (length (yielded futures order) <= length futures)%nat.
Proof.
  intros Hnd.
  assert (Hlen : forall order,
    length (yielded futures order)
    = length (List.filter (fun i => bool_decide (i < length futures)%nat) order)).
  { clear. induction order as [|i order IH]; [reflexivity|].
    unfold yielded. cbn [omap list_omap List.filter]. fold (yielded futures order).
    destruct (futures !! i) as [f|] eqn:Ei.
    - apply lookup_lt_Some in Ei. rewrite bool_decide_eq_true_2 by exact Ei.
      simpl. rewrite IH. reflexivity.
    - apply lookup_ge_None in Ei. rewrite bool_decide_eq_false_2 by lia. exact IH. }
  rewrite Hlen.
  transitivity (length (seq 0 (length futures))); [|rewrite length_seq; lia].
  apply submseteq_length, NoDup_submseteq.
  - apply NoDup_ListNoDup, List.NoDup_filter, NoDup_ListNoDup, Hnd.
  - intros i Hi. apply list_elem_of_In, filter_In in Hi as [_ Hi].
    apply bool_decide_eq_true_1 in Hi. apply elem_of_seq. lia.
Qed.

End CollectPrefix.

(** ** main, on every path *)

Section MainPaths.

Context {T : Type}.
Variable unpack : T -> bool * str.
Variable check : str -> Probe (Res T).
Variables input_file output_file : string.

Let main := pool_main unpack check input_file output_file.

Lemma pool_main_missing fs nets order :
  fs !! input_file = None ->
  main fs nets order
  = {| exit := InputMissing; working_proxies := []; files := fs |}.
Proof. intros H. unfold main, pool_main. rewrite H. reflexivity. Qed.

Lemma pool_main_working fs nets order content :
  fs !! input_file = Some content ->
  working_proxies (main fs nets order)
  = snd (collect unpack (submit_all check nets (load_proxies content)) order []).
Proof.
  intros H. unfold main, pool_main. rewrite H. cbv zeta.
  destruct (collect unpack _ order []) as [[[]|e] w]; [|reflexivity].
  destruct (success_rate _ _); reflexivity.
Qed.

Lemma pool_main_completed fs nets order content :
  fs !! input_file = Some content ->
  exit (main fs nets order) = Completed ->
  exists u,
    fst (collect unpack (submit_all check nets (load_proxies content)) order [])
    = Returned u.
Proof.
  intros H. unfold main, pool_main. rewrite H. cbv zeta.
  destruct (collect unpack _ order []) as [[u|e] w]; [eauto|discriminate].
Qed.

(** The file system after a run: the list saved on completion, nothing
    touched otherwise. *)
Lemma pool_main_files fs nets order :
  (exit (main fs nets order) = Completed ->
   files (main fs nets order)
   = save output_file (working_proxies (main fs nets order)) fs)
  /\ (exit (main fs nets order) <> Completed -> files (main fs nets order) = fs).
Proof.
  unfold main, pool_main. destruct (fs !! input_file) as [content|]; cbv zeta.
  - destruct (collect unpack _ order []) as [[[]|e] w].
    + destruct (success_rate _ _); simpl; split; intros; congruence.
    + simpl. split; intros; congruence.
  - simpl. split; intros; congruence.
Qed.

Lemma pool_main_working_prefix fs nets order content :
  fs !! input_file = Some content ->
  exists k,
    working_proxies (main fs nets order)
    = flat_map (passing unpack)
        (take k (yielded (submit_all check nets (load_proxies content)) order)).
Proof.
  intros H. rewrite (pool_main_working fs nets order content H).
  destruct (collect_prefix unpack (submit_all check nets (load_proxies content))
              order []) as (k & Hw & _).
  exists k. exact Hw.
Qed.

(** What [main] collects are proxies it loaded, provided a call that
    passes returns the address it was given. *)
Lemma pool_main_working_loaded fs nets order content p :
  fs !! input_file = Some content ->
  (forall f, f ∈ submit_all check nets (load_proxies content) ->
     forall q, q ∈ passing unpack f -> q ∈ load_proxies content) ->
  p ∈ working_proxies (main fs nets order) ->
  p ∈ load_proxies content.
Proof.
  intros Hin Hown Hp.
  destruct (pool_main_working_prefix fs nets order content Hin) as [k Hk].
  rewrite Hk in Hp. apply list_elem_of_In, in_flat_map in Hp as (f & Hf & Hp).
  apply list_elem_of_In in Hf, Hp.
  apply (Hown f); [|exact Hp].
  eapply yielded_elem. rewrite <- (take_drop k (yielded _ order)).
  apply elem_of_app. left. exact Hf.
Qed.

Lemma pool_main_working_length fs nets order content :
  fs !! input_file = Some content ->
  NoDup order ->
  (length (working_proxies (main fs nets order)) <= length (load_proxies content))%nat.
Proof.
  intros Hin Hnd.
  destruct (pool_main_working_prefix fs nets order content Hin) as [k ->].
  etransitivity; [apply flat_map_passing_length|].
  rewrite length_take.
  pose proof (yielded_length (submit_all check nets (load_proxies content)) order Hnd)
    as Hy.
  unfold submit_all in Hy at 2. rewrite length_imap in Hy. lia.
Qed.

End MainPaths.

Lemma simple_passing_loaded nets proxies f q :
  f ∈ submit_all Proxy.check_proxy_simple nets proxies ->
  q ∈ passing (fun t => t) f -> q ∈ proxies.
Proof.
  intros Hf Hq. apply simple_future in Hf as (b & p & -> & Hp).
  simpl in Hq. destruct b; [|inversion Hq].
  apply list_elem_of_singleton in Hq as ->. exact Hp.
Qed.

Lemma thorough_passing_loaded urlparse nets proxies f q :
  f ∈ submit_all (Proxy2.check_proxy_thorough urlparse) nets proxies ->
  q ∈ passing Proxy2.unpack f -> q ∈ proxies.
Proof.
  intros Hf Hq. apply thorough_future in Hf as [(b & p & r & -> & Hp)|[-> _]].
  - simpl in Hq. destruct b; [|inversion Hq].
    apply list_elem_of_singleton in Hq as ->. exact Hp.
  - inversion Hq.
Qed.

Lemma success_rate_range (working total : nat) (q : Q) :
  (working <= total)%nat ->
  success_rate working total = Returned q ->
  (0 <= q /\ q <= 100)%Q.
Proof.
  intros Hle. unfold success_rate, truediv.
  destruct (Z.of_nat total =? 0) eqn:E; [discriminate|].
  apply Z.eqb_neq in E. intros [= <-].
  unfold Qle, Qmult. simpl.
  rewrite Pos.mul_1_r, Z2Pos.id by lia. lia.
Qed.

(** X5. [main] of proxy.py, for every input file, network and
    completion order that yields each future once: the working list is
    the list of the proxies whose call returned [True], one entry per
    loaded line that passed, in completion order; when it is not empty
    the run reaches its end and [working_proxies.txt] holds exactly the
    list, one proxy per line, in a form the loader reads back
    unchanged. *)
Theorem proxy_main_collects_and_saves
    (fs : FileSystem) (nets : nat -> Network) (order : list nat) (content : str) :
  fs !! Proxy.input_file = Some content ->
  order ≡ₚ seq 0 (length (load_proxies content)) ->
  let futures := submit_all Proxy.check_proxy_simple nets (load_proxies content) in
  let r := Proxy.main fs nets order in
  working_proxies r = flat_map (passing (fun t => t)) (yielded futures order)
  /\ working_proxies r ≡ₚ flat_map (passing (fun t => t)) futures
  /\ (working_proxies r <> [] ->
      exit r = Completed
      /\ files r = <[ Proxy.output_file := write_lines (working_proxies r) ]> fs
      /\ readlines (write_lines (working_proxies r))
         = List.map (fun p => p ++ [LF]) (working_proxies r)
      /\ load_proxies (write_lines (working_proxies r)) = working_proxies r).
Proof.
  intros Hin Hperm futures r. split.
  - subst r. unfold Proxy.main.
    rewrite (pool_main_working _ _ _ _ fs nets order content Hin).
    rewrite collect_returned by apply simple_futures_returned. reflexivity.
  - exact (proxy_main_collects fs nets order content Hin Hperm).
Qed.

Lemma proxy_main_collects_and_saves_witness :
  let fs : FileSystem :=
    {[ Proxy.input_file := write_lines [py "10.0.0.1:80"; py "10.0.0.2:80"] ]} in
  let r := Proxy.main fs (fun _ => net_200) [1; 0]%nat in
  working_proxies r ≡ₚ [py "10.0.0.1:80"; py "10.0.0.2:80"].
Proof.
  intros fs r.
  refine (proj1 (proj2 (proxy_main_collects_and_saves fs (fun _ => net_200)
            [1; 0]%nat (write_lines [py "10.0.0.1:80"; py "10.0.0.2:80"]) _ _))).
  - reflexivity.
  - vm_compute. apply perm_swap.
Defined.

(** X6. [main] of proxy2.py does the same whenever [urlparse] accepts
    every loaded line: the working list holds the proxies whose call
    returned [is_working = True], one entry per loaded line that passed,
    and a non-empty list is written to [verified_working_proxies.txt],
    one proxy per line and nothing else. *)
Theorem proxy2_main_collects_and_saves (urlparse : UrlParse)
    (fs : FileSystem) (nets : nat -> Network) (order : list nat) (content : str) :
  fs !! Proxy2.input_file = Some content ->
  (forall p, p ∈ load_proxies content -> urlparse p <> None) ->
  order ≡ₚ seq 0 (length (load_proxies content)) ->
  let futures :=
    submit_all (Proxy2.check_proxy_thorough urlparse) nets (load_proxies content) in
  let r := Proxy2.main urlparse fs nets order in
  working_proxies r ≡ₚ flat_map (passing Proxy2.unpack) futures
  /\ (working_proxies r <> [] ->
      exit r = Completed
      /\ files r = <[ Proxy2.output_file := write_lines (working_proxies r) ]> fs
      /\ readlines (write_lines (working_proxies r))
         = List.map (fun p => p ++ [LF]) (working_proxies r)
      /\ load_proxies (write_lines (working_proxies r)) = working_proxies r).
Proof. apply proxy2_main_collects. Qed.

Lemma proxy2_main_collects_and_saves_witness :
  let fs : FileSystem :=
    {[ Proxy2.input_file := write_lines [py "10.0.0.1:80"; py "10.0.0.2:80"] ]} in
  let r := Proxy2.main Urllib.urlparse fs (fun _ => net_200) [1; 0]%nat in
  working_proxies r ≡ₚ [py "10.0.0.1:80"; py "10.0.0.2:80"].
Proof.
  intros fs r.
  refine (proj1 (proxy2_main_collects_and_saves Urllib.urlparse fs (fun _ => net_200)
            [1; 0]%nat (write_lines [py "10.0.0.1:80"; py "10.0.0.2:80"]) _ _ _)).
  - reflexivity.
  - intros p Hp. apply list_elem_of_In in Hp. vm_compute in Hp.
    destruct Hp as [<-|[<-|[]]]; vm_compute; discriminate.
  - vm_compute. apply perm_swap.
Defined.

(** X7. One line that [urlparse] rejects aborts proxy2.py, whatever the
    network does and in whatever order the calls complete: [main] ends
    with the uncaught [ValueError] and leaves every file as it was, the
    results of the other proxies included. *)
Theorem proxy2_main_aborts_on_rejected_line (urlparse : UrlParse)
    (fs : FileSystem) (nets : nat -> Network) (order : list nat)
    (content p : str) :
  fs !! Proxy2.input_file = Some content ->
  p ∈ load_proxies content ->
  urlparse p = None ->
  order ≡ₚ seq 0 (length (load_proxies content)) ->
  exit (Proxy2.main urlparse fs nets order) = Uncaught Exc.ValueError
  /\ files (Proxy2.main urlparse fs nets order) = fs.
Proof.
  intros Hin Hp Hnone Hperm.
  set (futures := submit_all (Proxy2.check_proxy_thorough urlparse) nets
                    (load_proxies content)).
  assert (Hne : load_proxies content <> []).
  { intros E. rewrite E in Hp. inversion Hp. }
  assert (Hbad : Propagated Exc.ValueError ∈ futures).
  { apply list_elem_of_lookup_1 in Hp as [i Hi].
    pose proof (elem_of_lookup_imap_2
      (fun i proxy => fst (run (Proxy2.check_proxy_thorough urlparse proxy) (nets i)))
      _ _ _ Hi) as H.
    cbv beta in H.
    rewrite (check_proxy_thorough_unparsed urlparse p (nets i) Hnone) in H.
    exact H. }
  assert (Hexit : exit (Proxy2.main urlparse fs nets order) = Uncaught Exc.ValueError).
  { destruct (pool_main_exit Proxy2.unpack (Proxy2.check_proxy_thorough urlparse)
                Proxy2.input_file Proxy2.output_file fs nets order content Hin Hne)
      as [E|(e & E & He)].
    - exfalso.
      destruct (pool_main_completed _ _ _ _ fs nets order content Hin E) as [u Hu].
      fold futures in Hu.
      destruct (collect_prefix Proxy2.unpack futures order []) as (k & _ & Hall & Hres).
      rewrite Hu in Hres. rewrite Hres in Hall.
      assert (Hy : Propagated Exc.ValueError ∈ yielded futures order).
      { rewrite yielded_perm; [exact Hbad|].
        unfold futures, submit_all. rewrite length_imap. exact Hperm. }
      unfold all_returned in Hall. rewrite Forall_forall in Hall.
      destruct (Hall _ Hy) as [t Ht]. discriminate Ht.
    - unfold Proxy2.main. rewrite E.
      apply thorough_future in He as [(b & q & r & He & _)|[He _]];
        [discriminate He | injection He as ->; reflexivity]. }
  split; [exact Hexit|].
  apply (pool_main_files Proxy2.unpack (Proxy2.check_proxy_thorough urlparse)
           Proxy2.input_file Proxy2.output_file fs nets order).
  fold (Proxy2.main urlparse). rewrite Hexit. discriminate.
Qed.

Lemma proxy2_main_aborts_on_rejected_line_witness :
  exit (Proxy2.main Urllib.urlparse {[ Proxy2.input_file := two_lines ]}
          (fun _ => net_refused) [1; 0]%nat)
  = Uncaught Exc.ValueError.
Proof.
  refine (proj1 (proxy2_main_aborts_on_rejected_line Urllib.urlparse
            {[ Proxy2.input_file := two_lines ]} (fun _ => net_refused) [1; 0]%nat
            two_lines unmatched_bracket _ _ _ _)).
  - reflexivity.
  - apply list_elem_of_In. vm_compute. right. left. reflexivity.
  - reflexivity.
  - vm_compute. apply perm_swap.
Defined.

Lemma script_main_files (script : Script) fs nets order :
  (exit (script_main script fs nets order) = Completed ->
   files (script_main script fs nets order)
   = save (script_output script)
          (working_proxies (script_main script fs nets order)) fs)
  /\ (exit (script_main script fs nets order) <> Completed ->
      files (script_main script fs nets order) = fs).
Proof.
  destruct script as [|urlparse]; cbn [script_main script_output].
  - apply (pool_main_files (fun t => t) Proxy.check_proxy_simple
             Proxy.input_file Proxy.output_file).
  - apply (pool_main_files Proxy2.unpack (Proxy2.check_proxy_thorough urlparse)
             Proxy2.input_file Proxy2.output_file).
Qed.

(** X8. Neither script touches a file other than its output file, the
    input file included. The output file is rewritten only by a run that
    reaches its end with a non-empty working list, and then holds exactly
    that list; a run that ends early or finds no working proxy leaves the
    file system as it was, a list saved by an earlier run included. *)
Theorem main_writes_only_its_output_file (script : Script)
    (fs : FileSystem) (nets : nat -> Network) (order : list nat) :
  let r := script_main script fs nets order in
  (forall name, name <> script_output script -> files r !! name = fs !! name)
  /\ (files r = fs
      \/ (exit r = Completed /\ working_proxies r <> []
          /\ files r = <[ script_output script := write_lines (working_proxies r) ]> fs))
  /\ (exit r <> Completed -> files r = fs)
  /\ (working_proxies r = [] -> files r = fs).
Proof.
  intros r. destruct (script_main_files script fs nets order) as [Hdone Hearly].
  fold r in Hdone, Hearly.
  assert (Hcases : files r = fs
      \/ (exit r = Completed /\ working_proxies r <> []
          /\ files r = <[ script_output script := write_lines (working_proxies r) ]> fs)).
  { destruct (exit r) eqn:E; [left; apply Hearly; discriminate
                             | left; apply Hearly; discriminate |].
    specialize (Hdone eq_refl). unfold save in Hdone.
    destruct (working_proxies r) eqn:W; [left; exact Hdone|].
    right. repeat split; [discriminate | exact Hdone]. }
  split; [|split; [exact Hcases|split; [exact Hearly|]]].
  - intros name Hname. destruct Hcases as [->|(_ & _ & ->)]; [reflexivity|].
    apply lookup_insert_ne. congruence.
  - intros W. destruct Hcases as [H|(_ & Hw & _)]; [exact H | contradiction].
Qed.

(** X11. The two scripts compose. After a run of proxy.py that found a
    working proxy, the file proxy2.py reads is the one proxy.py wrote,
    its loader gets exactly proxy.py's working list, and whatever
    proxy2.py then collects, in any order and whether or not it reaches
    its end, are proxies of that list. *)
Theorem proxy2_reads_what_proxy_saved (urlparse : UrlParse)
    (fs : FileSystem) (nets1 nets2 : nat -> Network) (order1 order2 : list nat)
    (content : str) :
  fs !! Proxy.input_file = Some content ->
  order1 ≡ₚ seq 0 (length (load_proxies content)) ->
  working_proxies (Proxy.main fs nets1 order1) <> [] ->
  let r1 := Proxy.main fs nets1 order1 in
  let r2 := Proxy2.main urlparse (files r1) nets2 order2 in
  files r1 !! Proxy2.input_file = Some (write_lines (working_proxies r1))
  /\ load_proxies (write_lines (working_proxies r1)) = working_proxies r1
  /\ (forall p, p ∈ working_proxies r2 -> p ∈ working_proxies r1).
Proof.
  intros Hin Hperm Hw r1 r2.
  destruct (proxy_main_collects fs nets1 order1 content Hin Hperm) as [_ Hsave].
  destruct (Hsave Hw) as (_ & Hfiles & _ & Hload).
  fold r1 in Hfiles, Hload.
  assert (Hread : files r1 !! Proxy2.input_file
                  = Some (write_lines (working_proxies r1))).
  { rewrite Hfiles. apply lookup_insert_eq. }
  split; [exact Hread|]. split; [exact Hload|].
  intros p Hp. rewrite <- Hload.
  apply (pool_main_working_loaded Proxy2.unpack (Proxy2.check_proxy_thorough urlparse)
           Proxy2.input_file Proxy2.output_file (files r1) nets2 order2
           (write_lines (working_proxies r1)) p Hread); [|exact Hp].
  intros f Hf q Hq. eapply thorough_passing_loaded; eassumption.
Qed.

Lemma proxy2_reads_what_proxy_saved_witness :
  let fs : FileSystem :=
    {[ Proxy.input_file := write_lines [py "10.0.0.1:80"; py "10.0.0.2:80"] ]} in
  let r1 := Proxy.main fs (fun _ => net_200) [1; 0]%nat in
  load_proxies (write_lines (working_proxies r1)) = working_proxies r1.
Proof.
  intros fs r1.
  refine (proj1 (proj2 (proxy2_reads_what_proxy_saved Urllib.urlparse fs
            (fun _ => net_200) (fun _ => net_refused) [1; 0]%nat [0; 1]%nat
            (write_lines [py "10.0.0.1:80"; py "10.0.0.2:80"]) _ _ _))).
  - reflexivity.
  - vm_compute. apply perm_swap.
  - vm_compute. discriminate.
Defined.

(** X15. In either script the working list never outgrows what was
    loaded: every collected proxy is a loaded one, and as long as no
    future is yielded twice the number of working proxies is at most the
    total, so that the success rate, when the division returns, lies
    between 0 and 100. This holds at every point where the run may
    end. *)
Theorem working_list_within_loaded (script : Script)
    (fs : FileSystem) (nets : nat -> Network) (order : list nat) (content : str) :
  fs !! script_input script = Some content ->
  NoDup order ->
  let r := script_main script fs nets order in
  let total := length (load_proxies content) in
  (forall p, p ∈ working_proxies r -> p ∈ load_proxies content)
  /\ (length (working_proxies r) <= total)%nat
  /\ (forall q, success_rate (length (working_proxies r)) total = Returned q ->
        (0 <= q /\ q <= 100)%Q).
Proof.
  intros Hin Hnd r total.
  assert (Hlen : (length (working_proxies r) <= total)%nat).
  { subst r total. destruct script as [|urlparse]; cbn [script_main script_input] in *.
    - apply (pool_main_working_length (fun t => t) Proxy.check_proxy_simple
               Proxy.input_file Proxy.output_file fs nets order content Hin Hnd).
    - apply (pool_main_working_length Proxy2.unpack
               (Proxy2.check_proxy_thorough urlparse)
               Proxy2.input_file Proxy2.output_file fs nets order content Hin Hnd). }
  split; [|split; [exact Hlen|]].
  - intros p Hp. subst r.
    destruct script as [|urlparse]; cbn [script_main script_input] in *.
    + apply (pool_main_working_loaded (fun t => t) Proxy.check_proxy_simple
               Proxy.input_file Proxy.output_file fs nets order content p Hin);
        [|exact Hp].
      intros f Hf q Hq. eapply simple_passing_loaded; eassumption.
    + apply (pool_main_working_loaded Proxy2.unpack
               (Proxy2.check_proxy_thorough urlparse)
               Proxy2.input_file Proxy2.output_file fs nets order content p Hin);
        [|exact Hp].
      intros f Hf q Hq. eapply thorough_passing_loaded; eassumption.
  - intros q Hq. eapply success_rate_range; eassumption.
Qed.

Lemma working_list_within_loaded_witness :
  let fs : FileSystem :=
    {[ Proxy.input_file := write_lines [py "10.0.0.1:80"; py "10.0.0.2:80"] ]} in
  (length (working_proxies (Proxy.main fs (fun _ => net_200) [1; 0]%nat)) <= 2)%nat.
Proof.
  intros fs.
  refine (proj1 (proj2 (working_list_within_loaded ProxyPy fs (fun _ => net_200)
            [1; 0]%nat (write_lines [py "10.0.0.1:80"; py "10.0.0.2:80"]) _ _))).
  - reflexivity.
  - apply (bool_decide_unpack _). vm_compute. exact I.
Defined.

(** ** The progress line *)

Section ProgressFacts.

Context {T : Type}.
Variable unpack : T -> bool * str.


End ProgressFacts.

